(** * Typescene: bindings, bound-value propagation, services, modal controller

    A shallow embedding of the binding engine of typescene
    ([core/Binding.ts]: the formatting helpers, the filter registry,
    [Binding] with [addFilter] and its [Reader], and [Binding.Bound] with
    [updateComponents]), of the service registry ([core/ManagedService.ts])
    and of [UIModalController] ([ui/controllers/UIModalController.ts]),
    together with the error table of [errors.ts].

    - JavaScript values are a first-order data type. Objects, arrays and
      closures carry an identity; property reads follow the prototype chain
      up to [Object.prototype].
    - Numbers are IEEE-754 binary64 values (primitive floats). [Math.round],
      [Number.prototype.toFixed], [parseFloat], unary [+] and the conversion
      of a number to a string are written out over the exact integer
      mantissa and exponent of a float.
    - Strings are byte strings; white space and case mapping are the ASCII
      ones.
    - Code that throws returns an [outcome]; code that also logs to the
      unhandled-exception sink or draws fresh identities runs in the monad
      [M] over a [runtime].
    - Collaborators outside these files ([tt], the locale, built-ins that are
      not written out) are fields of the class [Host]; the render context of
      the modal controller and the readers of bound instances are section
      variables.

    [StringFormatBinding] and the [and]/[or] combinators of [Binding], which
    go through [Component.getBoundBinding], are not part of the development.

    The definitions come first, module by module as in the sources; the
    properties follow in [BuiltinFacts], [BindingFacts], [BoundFacts],
    [ServiceFacts] and [ModalFacts]. *)

From Stdlib Require Import ZArith String Ascii List Bool Lia Floats DecimalString.
From stdpp Require Import base option list gmap strings.
Import ListNotations.

Set Warnings "-inexact-float,-register-all".
Local Open Scope string_scope.
Local Open Scope Z_scope.

(* ===================================================================== *)
(** * JavaScript strings *)
(* ===================================================================== *)

Module JsString.

(** [WhiteSpace] and [LineTerminator] code points below 128. *)
Definition is_space (c : ascii) : bool :=
  match nat_of_ascii c with
  | 9%nat | 10%nat | 11%nat | 12%nat | 13%nat | 32%nat => true
  | _ => false
  end.

Fixpoint trimStart (s : string) : string :=
  match s with
  | String c r => if is_space c then trimStart r else s
  | EmptyString => EmptyString
  end.

(** Drops trailing white space: a character is kept when something that is
    kept or not white space follows it. *)
Fixpoint trimEnd (s : string) : string :=
  match s with
  | EmptyString => EmptyString
  | String c r =>
      match trimEnd r with
      | EmptyString => if is_space c then EmptyString else String c EmptyString
      | r' => String c r'
      end
  end.

(** [String.prototype.trim] *)
Definition trim (s : string) : string := trimEnd (trimStart s).

Definition len (s : string) : Z := Z.of_nat (String.length s).

(** [s.indexOf(c)] for a one-character needle; [-1] when absent. *)
Fixpoint indexOf_from (c : ascii) (s : string) (i : Z) : Z :=
  match s with
  | EmptyString => -1
  | String d r => if Ascii.eqb c d then i else indexOf_from c r (i + 1)
  end.

Definition indexOf (s : string) (c : ascii) : Z := indexOf_from c s 0.

(** Relative index of [slice]: negative counts from the end, clamped. *)
Definition rel (n : Z) (k : Z) : Z :=
  if k <? 0 then Z.max (n + k) 0 else Z.min k n.

(** [s.slice(from, to)]; [to = None] is an omitted second argument. *)
Definition slice (s : string) (from : Z) (to : option Z) : string :=
  let n := len s in
  let a := rel n from in
  let b := match to with Some t => rel n t | None => n end in
  String.substring (Z.to_nat a) (Z.to_nat (Z.max (b - a) 0)) s.

(** [s.split(sep)] for a one-character separator: never empty. *)
Fixpoint split (sep : ascii) (s : string) : list string :=
  match s with
  | EmptyString => [EmptyString]
  | String c r =>
      if Ascii.eqb c sep then EmptyString :: split sep r
      else match split sep r with
           | x :: xs => String c x :: xs
           | [] => [String c EmptyString]
           end
  end.

(** [s[0]] *)
Definition head (s : string) : option ascii :=
  match s with String c _ => Some c | EmptyString => None end.

Fixpoint join (sep : string) (l : list string) : string :=
  match l with
  | [] => EmptyString
  | [x] => x
  | x :: xs => x +:+ sep +:+ join sep xs
  end.

Definition repeat0 (n : nat) : string := string_of_list_ascii (List.repeat "0"%char n).

(** First occurrence of a two-character pattern, split around it. *)
Fixpoint find2 (a b : ascii) (s : string) : option (string * string) :=
  match s with
  | String c ((String d r) as t) =>
      if Ascii.eqb c a && Ascii.eqb d b then Some (EmptyString, r)
      else match find2 a b t with
           | Some (pre, post) => Some (String c pre, post)
           | None => None
           end
  | _ => None
  end.

Definition upper_ascii (c : ascii) : ascii :=
  let n := nat_of_ascii c in
  if (97 <=? n)%nat && (n <=? 122)%nat then ascii_of_nat (n - 32) else c.

(** [String.prototype.toUpperCase] on ASCII letters. *)
Fixpoint toUpperCase (s : string) : string :=
  match s with
  | EmptyString => EmptyString
  | String c r => String (upper_ascii c) (toUpperCase r)
  end.

End JsString.

(* ===================================================================== *)
(** * JavaScript numbers *)
(* ===================================================================== *)

Module JsNumber.

(** The Number nearest to an integer (ties to even). *)
Definition of_Z (n : Z) : float := SF2Prim (binary_normalize prec emax n 0 false).

(** The Number nearest to [p/q] (ties to even), negated when [neg]: the
    quotient is taken with at least 64 significant bits and the remainder
    kept as the rounding location. *)
Definition of_Q (neg : bool) (p q : positive) : float :=
  let k := Z.max 0 (64 + Z.log2 (Z.pos q) - Z.log2 (Z.pos p)) in
  let num := Z.pos p * 2 ^ k in
  let m := num / Z.pos q in
  let r := num mod Z.pos q in
  let l := if r =? 0 then loc_Exact else loc_Inexact (2 * r ?= Z.pos q) in
  SF2Prim (binary_round_aux prec emax neg m (- k) l).

(** The Number nearest to [mant * 10^e10], [mant >= 0]. *)
Definition of_decimal (neg : bool) (mant e10 : Z) : float :=
  match mant with
  | Z.pos p =>
      if 0 <=? e10 then of_Q neg (p * Z.to_pos (10 ^ e10)) 1
      else of_Q neg p (Z.to_pos (10 ^ (- e10)))
  | _ => if neg then neg_zero else zero
  end.

(** A finite non-zero magnitude [m * 2^e] as a fraction. *)
Definition frac_of (m : positive) (e : Z) : Z * Z :=
  if 0 <=? e then (Z.pos m * 2 ^ e, 1) else (Z.pos m, 2 ^ (- e)).

(** [floor (p/q + 1/2)] *)
Definition round_half_up (p q : Z) : Z := (2 * p + q) / (2 * q).

(** [Math.round]: the nearest integer, ties towards +infinity; a result of
    zero keeps the sign of the argument. *)
Definition Math_round (x : float) : float :=
  match Prim2SF x with
  | S754_finite s m e =>
      if 0 <=? e then x
      else
        let '(p, q) := frac_of m e in
        let n := round_half_up (if s then - p else p) q in
        if n =? 0 then (if s then neg_zero else zero) else of_Z n
  | _ => x
  end.

(** [ToIntegerOrInfinity]; [None] stands for an infinity. *)
Definition ToIntegerOrInfinity (x : float) : option Z :=
  match Prim2SF x with
  | S754_nan | S754_zero _ => Some 0
  | S754_infinity _ => None
  | S754_finite s m e =>
      let '(p, q) := frac_of m e in
      Some (if s then - (p / q) else p / q)
  end.

Definition digits (n : Z) : string :=
  NilEmpty.string_of_uint (N.to_uint (Z.to_N n)).

(** [p/q >= 10^j] for positive [p], [q]. *)
Definition ge_pow10 (p q j : Z) : bool :=
  if 0 <=? j then q * 10 ^ j <=? p else q <=? p * 10 ^ (- j).

Fixpoint exp10_down (fuel : nat) (p q j : Z) : Z :=
  match fuel with
  | O => j
  | S fuel' => if ge_pow10 p q j then j else exp10_down fuel' p q (j - 1)
  end.

Fixpoint exp10_up (fuel : nat) (p q j : Z) : Z :=
  match fuel with
  | O => j
  | S fuel' => if ge_pow10 p q (j + 1) then exp10_up fuel' p q (j + 1) else j
  end.

(** The [n] with [10^(n-1) <= p/q < 10^n], found from a binary estimate. *)
Definition dec_exponent (p q : Z) : Z :=
  let j0 := (Z.log2 p - Z.log2 q) * 30103 / 100000 in
  exp10_up 700 p q (exp10_down 700 p q j0) + 1.

(** Candidates for the [k]-digit significand of [p/q] with decimal exponent
    [n], nearest first (the even one first on a tie). *)
Definition candidates (p q n k : Z) : list Z :=
  let '(P, Q) := if 0 <=? k - n then (p * 10 ^ (k - n), q) else (p, q * 10 ^ (n - k)) in
  let lo := P / Q in
  let r := P mod Q in
  match 2 * r ?= Q with
  | Lt => [lo; lo + 1]
  | Gt => [lo + 1; lo]
  | Eq => if Z.even lo then [lo; lo + 1] else [lo + 1; lo]
  end.

Definition reads_back (x : float) (n k : Z) (c : Z) : bool :=
  PrimFloat.eqb (of_decimal false c (n - k)) x.

(** The shortest significand that reads back as [x]: [k] runs from [1]. *)
Fixpoint shortest (fuel : nat) (x : float) (p q n k : Z) : Z * Z :=
  match fuel with
  | O => (0, k)
  | S fuel' =>
      match List.find (reads_back x n k) (candidates p q n k) with
      | Some c => (c, k)
      | None => shortest fuel' x p q n (k + 1)
      end
  end.

Fixpoint strip_zeros_rev (l : list ascii) : list ascii :=
  match l with
  | "0"%char :: r => strip_zeros_rev r
  | _ => l
  end.

Definition strip_trailing_zeros (s : string) : string :=
  string_of_list_ascii (rev (strip_zeros_rev (rev (list_ascii_of_string s)))).

(** [Number::toString] of a positive finite value [m * 2^e]. *)
Definition toString_pos (x : float) (m : positive) (e : Z) : string :=
  let '(p, q) := frac_of m e in
  let n0 := dec_exponent p q in
  let '(c, k0) := shortest 17 x p q n0 1 in
  let ds0 := digits c in
  let n := n0 + (JsString.len ds0 - k0) in
  let ds := strip_trailing_zeros ds0 in
  let k := JsString.len ds in
  if (k <=? n) && (n <=? 21) then ds +:+ JsString.repeat0 (Z.to_nat (n - k))
  else if (0 <? n) && (n <=? 21) then
    JsString.slice ds 0 (Some n) +:+ "." +:+ JsString.slice ds n None
  else if (-6 <? n) && (n <=? 0) then
    "0." +:+ JsString.repeat0 (Z.to_nat (- n)) +:+ ds
  else
    let ex := n - 1 in
    let sg := if ex <? 0 then "-" else "+" in
    if k =? 1 then ds +:+ "e" +:+ sg +:+ digits (Z.abs ex)
    else JsString.slice ds 0 (Some 1) +:+ "." +:+ JsString.slice ds 1 None
         +:+ "e" +:+ sg +:+ digits (Z.abs ex).

(** [Number::toString(x)], radix 10. *)
Definition toString (x : float) : string :=
  match Prim2SF x with
  | S754_nan => "NaN"
  | S754_zero _ => "0"
  | S754_infinity s => if s then "-Infinity" else "Infinity"
  | S754_finite s m e =>
      (if s then "-" else "") +:+ toString_pos (abs x) m e
  end.

(** The digits of [n >= 0] with a point before the last [f] of them. *)
Definition fixed_string (n : Z) (f : Z) : string :=
  let m := digits n in
  if f =? 0 then m
  else
    let k := JsString.len m in
    let m' := if k <=? f then JsString.repeat0 (Z.to_nat (f + 1 - k)) +:+ m else m in
    let k' := JsString.len m' in
    JsString.slice m' 0 (Some (k' - f)) +:+ "." +:+ JsString.slice m' (k' - f) None.

(** [Number.prototype.toFixed]: [None] is the RangeError for a digit count
    outside [0..100]. *)
Definition toFixed (x : float) (fractionDigits : float) : option string :=
  match ToIntegerOrInfinity fractionDigits with
  | None => None
  | Some f =>
      if (f <? 0) || (100 <? f) then None
      else
        match Prim2SF x with
        | S754_nan | S754_infinity _ => Some (toString x)
        | S754_zero _ => Some (fixed_string 0 f)
        | S754_finite s m e =>
            let '(p, q) := frac_of m e in
            let body :=
              if q * 10 ^ 21 <=? p then toString_pos (abs x) m e
              else fixed_string (round_half_up (p * 10 ^ f) q) f in
            Some ((if s then "-" else "") +:+ body)
        end
  end.

(** ** Reading numbers from strings *)

Definition digit_val (c : ascii) : option Z :=
  let n := Z.of_nat (nat_of_ascii c) in
  if (48 <=? n) && (n <=? 57) then Some (n - 48) else None.

Definition hex_val (c : ascii) : option Z :=
  let n := Z.of_nat (nat_of_ascii c) in
  if (48 <=? n) && (n <=? 57) then Some (n - 48)
  else if (97 <=? n) && (n <=? 102) then Some (n - 87)
  else if (65 <=? n) && (n <=? 70) then Some (n - 55)
  else None.

(** The longest run of digits at the front, with the rest. *)
Fixpoint span_digits (cs : list ascii) : list Z * list ascii :=
  match cs with
  | c :: r =>
      match digit_val c with
      | Some d => let '(ds, rest) := span_digits r in (d :: ds, rest)
      | None => ([], cs)
      end
  | [] => ([], [])
  end.

Definition nat_of_digits (base : Z) (ds : list Z) : Z :=
  fold_left (fun acc d => acc * base + d) ds 0.

(** An [ExponentPart] at the front, if one is there in full. *)
Definition exponent_part (cs : list ascii) : Z * list ascii :=
  match cs with
  | c :: r =>
      if Ascii.eqb c "e" || Ascii.eqb c "E" then
        let '(neg, r') :=
          match r with
          | "-"%char :: t => (true, t)
          | "+"%char :: t => (false, t)
          | _ => (false, r)
          end in
        match span_digits r' with
        | ([], _) => (0, cs)
        | (ds, rest) => (if neg then - nat_of_digits 10 ds else nat_of_digits 10 ds, rest)
        end
      else (0, cs)
  | [] => (0, cs)
  end.

Definition Infinity_chars : list ascii := list_ascii_of_string "Infinity".

Fixpoint strip_prefix (pre cs : list ascii) : option (list ascii) :=
  match pre, cs with
  | [], _ => Some cs
  | a :: pre', c :: cs' => if Ascii.eqb a c then strip_prefix pre' cs' else None
  | _ :: _, [] => None
  end.

(** The longest prefix that is a [StrUnsignedDecimalLiteral], as a Number
    of the given sign, with the rest of the input. *)
Definition unsigned_decimal (neg : bool) (cs : list ascii) : option (float * list ascii) :=
  match strip_prefix Infinity_chars cs with
  | Some rest => Some (if neg then neg_infinity else infinity, rest)
  | None =>
      let '(ip, r1) := span_digits cs in
      let after_point :=
        match r1 with
        | "."%char :: t =>
            let '(fp, r2) := span_digits t in
            match ip, fp with
            | [], [] => None
            | _, _ => Some (fp, r2)
            end
        | _ => match ip with [] => None | _ => Some ([], r1) end
        end in
      match after_point with
      | None => None
      | Some (fp, r2) =>
          let '(ex, rest) := exponent_part r2 in
          Some (of_decimal neg (nat_of_digits 10 (ip ++ fp))
                  (ex - Z.of_nat (List.length fp)), rest)
      end
  end.

(** The longest prefix that is a [StrDecimalLiteral]. *)
Definition decimal_prefix (cs : list ascii) : option (float * list ascii) :=
  match cs with
  | "-"%char :: t => unsigned_decimal true t
  | "+"%char :: t => unsigned_decimal false t
  | _ => unsigned_decimal false cs
  end.

(** [parseFloat] of a string. *)
Definition parseFloat_string (s : string) : float :=
  match decimal_prefix (list_ascii_of_string (JsString.trimStart s)) with
  | Some (x, _) => x
  | None => nan
  end.

Fixpoint all_digits (val : ascii -> option Z) (base : Z) (cs : list ascii) : option (list Z) :=
  match cs with
  | [] => Some []
  | c :: r =>
      match val c, all_digits val base r with
      | Some d, Some ds => if d <? base then Some (d :: ds) else None
      | _, _ => None
      end
  end.

(** A [NonDecimalIntegerLiteral]: [0x], [0o] or [0b] and at least one digit. *)
Definition non_decimal (cs : list ascii) : option float :=
  match cs with
  | "0"%char :: c :: ((_ :: _) as r) =>
      let base :=
        if Ascii.eqb c "x" || Ascii.eqb c "X" then Some 16
        else if Ascii.eqb c "o" || Ascii.eqb c "O" then Some 8
        else if Ascii.eqb c "b" || Ascii.eqb c "B" then Some 2
        else None in
      match base with
      | Some b =>
          match all_digits hex_val b r with
          | Some ds => Some (of_Z (nat_of_digits b ds))
          | None => None
          end
      | None => None
      end
  | _ => None
  end.

(** [StringToNumber]: the whole trimmed string is a numeric literal, or it
    is empty, or the result is NaN. *)
Definition ofString (s : string) : float :=
  let cs := list_ascii_of_string (JsString.trim s) in
  match cs with
  | [] => zero
  | _ =>
      match non_decimal cs with
      | Some x => x
      | None =>
          match decimal_prefix cs with
          | Some (x, []) => x
          | _ => nan
          end
      end
  end.

End JsNumber.

(* ===================================================================== *)
(** * JavaScript values *)
(* ===================================================================== *)

(** The built-in prototype objects of the fragment. *)
Inductive proto : Set :=
| ObjectProto | ArrayProto | FunctionProto | StringProto | NumberProto | BooleanProto.

(** Values. Arrays, objects and closures carry an identity, which is what
    [===] compares. [VObj] is an object whose prototype chain ends in
    [Object.prototype]; its table holds its own and class-inherited
    properties. [FKeyed] is a keyed getter (such as [ManagedMap.get]) bound
    to its table, [FConst] a method that returns a fixed value, [FNative] a
    built-in method, named by the prototype that owns it. *)
Inductive value : Type :=
| VUndef
| VNull
| VBool (b : bool)
| VNum (x : float)
| VStr (s : string)
| VArr (id : nat) (elems : list value)
| VObj (id : nat) (props : list (string * value))
| VProto (p : proto)
| VFun (f : func)
with func : Type :=
| FNative (owner : proto) (name : string)
| FKeyed (id : nat) (table : list (string * value))
| FConst (id : nat) (result : value).

(** What a [throw] carries: [Error(message)] as built by [err], the
    engine's own TypeError and RangeError, or any value thrown by user
    code. *)
Inductive exn : Type :=
| JsError (message : string)
| TypeError
| RangeError
| Thrown (v : value).

Inductive outcome (A : Type) : Type :=
| Normal (a : A)
| Throw (e : exn).
Arguments Normal {A} a.
Arguments Throw {A} e.

Instance outcome_ret : MRet outcome := fun _ a => Normal a.

Instance outcome_bind : MBind outcome := fun _ _ k o =>
  match o with
  | Normal a => k a
  | Throw e => Throw e
  end.

Instance proto_eq_dec : EqDecision proto.
Proof. solve_decision. Defined.

(** The host environment: collaborators that are not part of the binding
    module ([tt] of the i18n service, the locale's case mapping, the
    elements of a value that is a [ManagedList] instance) and the behaviour
    of built-ins outside the fragment written out below. *)
Class Host : Type := {
  tt : value -> option string -> outcome value;
  toLocaleUpperCase : string -> string;
  toLocaleLowerCase : string -> string;
  native_call : proto -> string -> value -> list value -> outcome value;
  function_own : func -> string -> option value;
  function_source : func -> string;
  managedListToArray : value -> option (list value);
}.

Module Js.

Definition lookup_prop (props : list (string * value)) (p : string) : option value :=
  match List.find (fun kv => String.eqb (fst kv) p) props with
  | Some kv => Some (snd kv)
  | None => None
  end.

Definition Object_members : list string :=
  [ "constructor"; "hasOwnProperty"; "isPrototypeOf"; "propertyIsEnumerable";
    "toLocaleString"; "toString"; "valueOf"; "__proto__"; "__defineGetter__";
    "__defineSetter__"; "__lookupGetter__"; "__lookupSetter__" ].

Definition Array_members : list string :=
  [ "length"; "constructor"; "concat"; "copyWithin"; "entries"; "every"; "fill";
    "filter"; "find"; "findIndex"; "forEach"; "includes"; "indexOf"; "join";
    "keys"; "lastIndexOf"; "map"; "pop"; "push"; "reduce"; "reduceRight";
    "reverse"; "shift"; "slice"; "some"; "sort"; "splice"; "toLocaleString";
    "toString"; "unshift"; "values" ].

Definition Function_members : list string :=
  [ "length"; "name"; "constructor"; "apply"; "bind"; "call"; "toString" ].

Definition String_members : list string :=
  [ "length"; "constructor"; "charAt"; "charCodeAt"; "codePointAt"; "concat";
    "endsWith"; "includes"; "indexOf"; "lastIndexOf"; "localeCompare"; "match";
    "normalize"; "repeat"; "replace"; "search"; "slice"; "split"; "startsWith";
    "substr"; "substring"; "toLocaleLowerCase"; "toLocaleUpperCase";
    "toLowerCase"; "toString"; "toUpperCase"; "trim"; "valueOf" ].

Definition Number_members : list string :=
  [ "constructor"; "toExponential"; "toFixed"; "toLocaleString"; "toPrecision";
    "toString"; "valueOf" ].

Definition Boolean_members : list string :=
  [ "constructor"; "toString"; "valueOf" ].

(** Own property names of a built-in prototype (ES2015, with the legacy
    accessors of [Object.prototype]). *)
Definition members (p : proto) : list string :=
  match p with
  | ObjectProto => Object_members
  | ArrayProto => Array_members
  | FunctionProto => Function_members
  | StringProto => String_members
  | NumberProto => Number_members
  | BooleanProto => Boolean_members
  end.

Definition mem (p : string) (l : list string) : bool :=
  existsb (String.eqb p) l.

(** The prototype that owns [p] on a chain starting at [start]. *)
Definition owner_of (start : proto) (p : string) : option proto :=
  if mem p (members start) then Some start
  else if mem p Object_members then Some ObjectProto
  else None.

(** The value of an own member of a built-in prototype other than
    [__proto__]: a function, but for the data properties. *)
Definition member_value (o : proto) (p : string) : value :=
  if String.eqb p "length" then
    match o with
    | ArrayProto | FunctionProto | StringProto => VNum zero
    | _ => VFun (FNative o p)
    end
  else if String.eqb p "name" then
    match o with FunctionProto => VStr "" | _ => VFun (FNative o p) end
  else VFun (FNative o p).

(** A canonical array index. *)
Definition array_index (p : string) : option nat :=
  match JsNumber.span_digits (list_ascii_of_string p) with
  | (_ :: _ as ds, []) =>
      let n := JsNumber.nat_of_digits 10 ds in
      if String.eqb (JsNumber.digits n) p then Some (Z.to_nat n) else None
  | _ => None
  end.

(** [typeof v] *)
Definition typeof (v : value) : string :=
  match v with
  | VUndef => "undefined"
  | VNull | VArr _ _ | VObj _ _ => "object"
  | VProto FunctionProto => "function"
  | VProto _ => "object"
  | VBool _ => "boolean"
  | VNum _ => "number"
  | VStr _ => "string"
  | VFun _ => "function"
  end.

(** [ToBoolean] *)
Definition ToBoolean (v : value) : bool :=
  match v with
  | VUndef | VNull => false
  | VBool b => b
  | VNum x => negb (PrimFloat.is_nan x || PrimFloat.is_zero x)
  | VStr s => negb (String.eqb s "")
  | _ => true
  end.

Definition func_same (f g : func) : bool :=
  match f, g with
  | FNative o n, FNative o' n' => bool_decide (o = o') && String.eqb n n'
  | FKeyed i _, FKeyed j _ => Nat.eqb i j
  | FConst i _, FConst j _ => Nat.eqb i j
  | _, _ => false
  end.

(** [a === b] *)
Definition strict_eq (a b : value) : bool :=
  match a, b with
  | VUndef, VUndef | VNull, VNull => true
  | VBool x, VBool y => Bool.eqb x y
  | VNum x, VNum y => PrimFloat.eqb x y
  | VStr x, VStr y => String.eqb x y
  | VArr i _, VArr j _ => Nat.eqb i j
  | VObj i _, VObj j _ => Nat.eqb i j
  | VProto p, VProto q => bool_decide (p = q)
  | VFun f, VFun g => func_same f g
  | _, _ => false
  end.

(** [v != undefined] (loose): neither undefined nor null. *)
Definition not_nullish (v : value) : bool :=
  match v with
  | VUndef | VNull => false
  | _ => true
  end.

Definition is_primitive (v : value) : bool :=
  match v with
  | VUndef | VNull | VBool _ | VNum _ | VStr _ => true
  | _ => false
  end.

(** The prototype a property read on [v] starts from. *)
Definition proto_of (v : value) : option proto :=
  match v with
  | VObj _ _ => Some ObjectProto
  | VArr _ _ => Some ArrayProto
  | VFun _ => Some FunctionProto
  | VStr _ => Some StringProto
  | VNum _ => Some NumberProto
  | VBool _ => Some BooleanProto
  | VProto ObjectProto => None
  | VProto _ => Some ObjectProto
  | VUndef | VNull => None
  end.

Section WithHost.
Context {host : Host}.

(** An own property of [v]. *)
Definition own_prop (v : value) (p : string) : option value :=
  match v with
  | VObj _ props => lookup_prop props p
  | VArr _ elems =>
      if String.eqb p "length" then Some (VNum (JsNumber.of_Z (Z.of_nat (List.length elems))))
      else match array_index p with
           | Some i => nth_error elems i
           | None => None
           end
  | VStr s =>
      if String.eqb p "length" then Some (VNum (JsNumber.of_Z (JsString.len s)))
      else match array_index p with
           | Some i =>
               match String.get i s with
               | Some c => Some (VStr (String c EmptyString))
               | None => None
               end
           | None => None
           end
  | VFun f => function_own f p
  | VProto o =>
      if mem p (members o) then
        Some (if String.eqb p "__proto__" then
                match o with ObjectProto => VNull | _ => VProto ObjectProto end
              else member_value o p)
      else None
  | _ => None
  end.

(** A property found on the prototype chain of [v]. *)
Definition inherited_prop (v : value) (p : string) : option value :=
  match proto_of v with
  | None => None
  | Some start =>
      match owner_of start p with
      | Some o =>
          Some (if String.eqb p "__proto__" then VProto start else member_value o p)
      | None => None
      end
  end.

(** [v[p]]: TypeError on undefined and null. *)
Definition get (v : value) (p : string) : outcome value :=
  match v with
  | VUndef | VNull => Throw TypeError
  | _ =>
      match own_prop v p with
      | Some x => Normal x
      | None =>
          match inherited_prop v p with
          | Some x => Normal x
          | None => Normal VUndef
          end
      end
  end.

(** [p in v]: TypeError when [v] is not an object. *)
Definition has (p : string) (v : value) : outcome bool :=
  if is_primitive v then Throw TypeError
  else Normal (match own_prop v p, inherited_prop v p with
               | None, None => false
               | _, _ => true
               end).

(** The class name in [Object.prototype.toString]. *)
Definition class_tag (v : value) : string :=
  match v with
  | VUndef => "Undefined"
  | VNull => "Null"
  | VBool _ | VProto BooleanProto => "Boolean"
  | VNum _ | VProto NumberProto => "Number"
  | VStr _ | VProto StringProto => "String"
  | VArr _ _ | VProto ArrayProto => "Array"
  | VFun _ | VProto FunctionProto => "Function"
  | VObj _ _ | VProto ObjectProto => "Object"
  end.

(** [ToString] of a primitive. *)
Definition prim_to_string (v : value) : string :=
  match v with
  | VUndef => "undefined"
  | VNull => "null"
  | VBool b => if b then "true" else "false"
  | VNum x => JsNumber.toString x
  | VStr s => s
  | _ => ""
  end.

(** Calling a method of the fragment that needs no conversion of its
    arguments; built-ins that are not written out go to the host. *)
Definition call_simple (f : func) (this : value) (args : list value) : outcome value :=
  match f with
  | FConst _ r => Normal r
  | FKeyed _ table =>
      match args with
      | VStr k :: _ =>
          Normal (match lookup_prop table k with Some x => x | None => VUndef end)
      | _ => Normal VUndef
      end
  | FNative ObjectProto "toString" =>
      Normal (VStr ("[object " +:+ class_tag this +:+ "]"))
  | FNative ObjectProto "valueOf" =>
      match this with
      | VUndef | VNull => Throw TypeError
      | VArr _ _ | VObj _ _ | VFun _ | VProto _ => Normal this
      | _ => native_call ObjectProto "valueOf" this args
      end
  | FNative FunctionProto "toString" =>
      match this with
      | VFun g => Normal (VStr (function_source g))
      | _ => native_call FunctionProto "toString" this args
      end
  | FNative NumberProto "valueOf" =>
      match this with
      | VNum _ => Normal this
      | _ => native_call NumberProto "valueOf" this args
      end
  | FNative StringProto "valueOf" =>
      match this with
      | VStr _ => Normal this
      | _ => native_call StringProto "valueOf" this args
      end
  | FNative StringProto "toString" =>
      match this with
      | VStr _ => Normal this
      | _ => native_call StringProto "toString" this args
      end
  | FNative BooleanProto "valueOf" =>
      match this with
      | VBool _ => Normal this
      | _ => native_call BooleanProto "valueOf" this args
      end
  | FNative BooleanProto "toString" =>
      match this with
      | VBool _ => Normal (VStr (prim_to_string this))
      | _ => native_call BooleanProto "toString" this args
      end
  | FNative NumberProto "toString" =>
      match this, args with
      | VNum _, [] => Normal (VStr (prim_to_string this))
      | _, _ => native_call NumberProto "toString" this args
      end
  | FNative o n => native_call o n this args
  end.

(** Whether [v] can be called, and with which function. *)
Definition callable (v : value) : option func :=
  match v with
  | VFun f => Some f
  | VProto FunctionProto => Some (FConst 0 VUndef)
  | _ => None
  end.

(** One step of [OrdinaryToPrimitive]: the method [name] of [v], when it is
    callable and returns a primitive. *)
Definition try_method (v : value) (name : string) : outcome (option value) :=
  m ← get v name;
  match callable m with
  | Some f =>
      r ← call_simple f v [];
      mret (if is_primitive r then Some r else None)
  | None => mret None
  end.

(** [ToPrimitive] of an object that is not an array; [hint_string] selects
    the order of [toString] and [valueOf]. *)
Definition to_primitive (hint_string : bool) (v : value) : outcome value :=
  let '(first, second) :=
    if hint_string then ("toString", "valueOf") else ("valueOf", "toString") in
  r1 ← try_method v first;
  match r1 with
  | Some r => mret r
  | None =>
      r2 ← try_method v second;
      match r2 with
      | Some r => mret r
      | None => Throw TypeError
      end
  end.

(** [ToString]. An array has no properties of its own in this fragment, so
    its [toString] is [Array.prototype.toString], that is [join(",")]. *)
Fixpoint to_string (v : value) : outcome string :=
  match v with
  | VArr _ elems =>
      ss ← (fix each (l : list value) : outcome (list string) :=
              match l with
              | [] => mret []
              | e :: r =>
                  s ← match e with
                      | VUndef | VNull => mret ""
                      | _ => to_string e
                      end;
                  rest ← each r;
                  mret (s :: rest)
              end) elems;
      mret (JsString.join "," ss)
  | VObj _ _ | VFun _ | VProto _ =>
      r ← to_primitive true v;
      mret (prim_to_string r)
  | _ => mret (prim_to_string v)
  end.

Definition prim_to_number (v : value) : float :=
  match v with
  | VNull => zero
  | VBool b => if b then one else zero
  | VNum x => x
  | VStr s => JsNumber.ofString s
  | _ => nan
  end.

(** [ToNumber] *)
Definition to_number (v : value) : outcome float :=
  match v with
  | VArr _ _ => s ← to_string v; mret (JsNumber.ofString s)
  | VObj _ _ | VFun _ | VProto _ =>
      r ← to_primitive false v;
      mret (prim_to_number r)
  | _ => mret (prim_to_number v)
  end.

(** The global [parseFloat]. *)
Definition parseFloat (v : value) : outcome float :=
  s ← to_string v;
  mret (JsNumber.parseFloat_string s).

(** The global [isNaN]. *)
Definition isNaN (v : value) : outcome bool :=
  x ← to_number v;
  mret (PrimFloat.is_nan x).

(** [Array.isArray] *)
Definition isArray (v : value) : bool :=
  match v with
  | VArr _ _ | VProto ArrayProto => true
  | _ => false
  end.

End WithHost.
End Js.

(* ===================================================================== *)
(** * errors.ts *)
(* ===================================================================== *)

Module Errors.

Inductive ERROR : Set :=
| ActivationContext_InvalidPath
| Application_Inactive
| ViewActivity_ViewBound
| ViewActivity_NoRenderContext
| ViewActivity_NoApplication
| ViewActivity_NoDialogBuilder
| ViewComponent_InvalidChild
| ViewComponent_NoRenderCtx
| Binding_UnknownFilter
| Binding_NotABinding
| Binding_NotFound
| Binding_ParentNotFound
| Binding_NoComponent
| Binding_ObjectType
| Component_NotAHandler
| Component_InvalidEventHandler
| List_Symbol
| List_Type
| List_Destroyed
| List_Duplicate
| List_NotFound
| List_OutOfBounds
| Map_Type
| Map_Destroyed
| Object_Base
| Object_NotEvent
| Object_Recursion
| Object_CannotDeactivate
| Object_Destroyed
| Object_StateCancelled
| Object_InvalidRef
| Object_RefDestroyed
| Object_PropNotManaged
| Object_PropGetSet
| Object_NotWritable
| Object_InvalidDep
| Record_Validation
| Record_Destroyed
| Ref_Type
| Service_NoName
| Service_BlankName
| Observe_ObservedType
| Observe_ObserveParent
| Observe_ShadowGetter
| Observe_RateLimitNonAsync
| Observe_ObserverRecursion
| Util_NoSync
| Util_AlreadyManaged
| UIStyle_Invalid
| UIMenu_NoBuilder
| UIModalController_Binding.

(** The message table [errors]. *)
Definition errors (error : ERROR) : string :=
  match error with
  | ActivationContext_InvalidPath =>
      "[ActivationContext] Invalid path: %s"
  | Application_Inactive =>
      "[Application] Cannot add activities to inactive application"
  | ViewActivity_ViewBound =>
      "[ViewActivity] View property cannot be bound"
  | ViewActivity_NoRenderContext =>
      "[ViewActivity] Render context not found (not a child component?)"
  | ViewActivity_NoApplication =>
      "[ViewActivity] Application instance not found"
  | ViewActivity_NoDialogBuilder =>
      "[ViewActivity] Dialog builder not found"
  | ViewComponent_InvalidChild =>
      "Invalid ViewComponent child component"
  | ViewComponent_NoRenderCtx =>
      "[ViewComponent] Render context not found (not a child component?)"
  | Binding_UnknownFilter =>
      "[Binding] Unknown binding filter: %s"
  | Binding_NotABinding =>
      "[Binding] Not a binding: %s"
  | Binding_NotFound =>
      "[Binding] Binding not found for: %s"
  | Binding_ParentNotFound =>
      "[Binding] Bound parent binding not found for: %s"
  | Binding_NoComponent =>
      "[Binding] Component not bound"
  | Binding_ObjectType =>
      "[Binding] Cannot convert bound object value to string"
  | Component_NotAHandler =>
      "[Component] Not an event handler method: %s"
  | Component_InvalidEventHandler =>
      "[Component] Invalid event handler preset: %s"
  | List_Symbol =>
      "[List] Symbol not supported"
  | List_Type =>
      "[List] Existing objects are not of given type"
  | List_Destroyed =>
      "[List] Cannot add objects to a destroyed list"
  | List_Duplicate =>
      "[List] Cannot insert object that is already in this list"
  | List_NotFound =>
      "[List] Object not found"
  | List_OutOfBounds =>
      "[List] Index out of bounds: %s"
  | Map_Type =>
      "[Map] Existing objects are not of given type"
  | Map_Destroyed =>
      "[Map] Cannot add objects to a destroyed map"
  | Object_Base =>
      "[Object] Cannot add event handler to base class"
  | Object_NotEvent =>
      "[Object] Argument is not a managed event"
  | Object_Recursion =>
      "[Object] Event recursion limit reached"
  | Object_CannotDeactivate =>
      "[Object] Cannot deactivate managed object"
  | Object_Destroyed =>
      "[Object] Managed object is already destroyed"
  | Object_StateCancelled =>
      "[Object] State transition cancelled"
  | Object_InvalidRef =>
      "[Object] Invalid object reference"
  | Object_RefDestroyed =>
      "[Object] Referenced object has been destroyed"
  | Object_PropNotManaged =>
      "[Object] Can only create managed properties on managed object instances"
  | Object_PropGetSet =>
      "[Object] Cannot turn properties with getters and/or setters into managed references"
  | Object_NotWritable =>
      "[Object] Property is not writable"
  | Object_InvalidDep =>
      "[Object] Dependency must point to a managed object: %s"
  | Record_Validation =>
      "[Record] Validation failed"
  | Record_Destroyed =>
      "[Record] Record has been destroyed"
  | Ref_Type =>
      "[Object] Existing reference is not of given type"
  | Service_NoName =>
      "[Service] Missing property name"
  | Service_BlankName =>
      "[Service] Service name cannot be blank"
  | Observe_ObservedType =>
      "[Object] Observed target is not a managed object class"
  | Observe_ObserveParent =>
      "[Object] Cannot observe events on parent reference"
  | Observe_ShadowGetter =>
      "[Object] Shadow observable can only be added to properties with getters"
  | Observe_RateLimitNonAsync =>
      "[Object] Rate limit can only be applied to async handlers"
  | Observe_ObserverRecursion =>
      "[Object] Recursion in observer constructor detected"
  | Util_NoSync =>
      "[Object] Synchronous observers are not allowed for property: %s"
  | Util_AlreadyManaged =>
      "[Object] Property is already managed in a base class: %s"
  | UIStyle_Invalid =>
      "[Style] Invalid style set instance"
  | UIMenu_NoBuilder =>
      "[Menu] Builder not found"
  | UIModalController_Binding =>
      "[Modal] modal property cannot be bound"
  end.

(** The replacement text of [String.prototype.replace] for a string
    pattern: [$$], [$&], [$`] and [$'] are expanded. *)
Fixpoint expand_replacement (matched before after : string) (r : string) : string :=
  match r with
  | String "$" ((String c rest) as t) =>
      if Ascii.eqb c "$" then String "$" (expand_replacement matched before after rest)
      else if Ascii.eqb c "&" then matched +:+ expand_replacement matched before after rest
      else if Ascii.eqb c "`" then before +:+ expand_replacement matched before after rest
      else if Ascii.eqb c "'" then after +:+ expand_replacement matched before after rest
      else String "$" (expand_replacement matched before after t)
  | String c rest => String c (expand_replacement matched before after rest)
  | EmptyString => EmptyString
  end.

(** [msg.replace("%s", s)]: the first occurrence only. *)
Definition replace_percent_s (msg : string) (s : string) : string :=
  match JsString.find2 "%" "s" msg with
  | Some (before, after) => before +:+ expand_replacement "%s" before after s +:+ after
  | None => msg
  end.

(** [err(error, s)]; [s = None] is an omitted argument, which [replace]
    turns into the text [undefined]. The table has a non-empty message for
    every member of the enumeration, so the fallback text is never used. *)
Definition err (error : ERROR) (s : option string) : exn :=
  let msg := if String.eqb (errors error) "" then "Unknown error" else errors error in
  JsError (replace_percent_s msg (match s with Some x => x | None => "undefined" end)).

End Errors.

(* ===================================================================== *)
(** * The runtime: exceptions, the unhandled-exception sink, fresh names *)
(* ===================================================================== *)

Record runtime : Type := mkRuntime {
  unhandled : list exn;      (** what [logUnhandledException] received, oldest first *)
  nextObjectId : nat;        (** identities for objects made by the formatters *)
  nextBindingUID : nat;      (** [_nextBindingUID] *)
}.

(** A computation that reads and writes the runtime and may throw. *)
Definition M (A : Type) : Type := runtime -> outcome A * runtime.

Instance M_ret : MRet M := fun _ a rt => (Normal a, rt).

Instance M_bind : MBind M := fun _ _ k m rt =>
  match m rt with
  | (Normal a, rt') => k a rt'
  | (Throw e, rt') => (Throw e, rt')
  end.

Definition throw {A} (e : exn) : M A := fun rt => (Throw e, rt).

Definition lift {A} (o : outcome A) : M A := fun rt => (o, rt).

(** Modelled from the spec: [logUnhandledException] of
    [core/UnhandledErrorEmitter], "an unhandled-exception logging sink";
    it records the error and returns. *)
Definition logUnhandledException (e : exn) : M unit := fun rt =>
  (Normal (), mkRuntime (unhandled rt ++ [e]) (nextObjectId rt) (nextBindingUID rt)).

Definition freshObjectId : M nat := fun rt =>
  (Normal (nextObjectId rt), mkRuntime (unhandled rt) (S (nextObjectId rt)) (nextBindingUID rt)).

Definition freshBindingUID : M nat := fun rt =>
  (Normal (nextBindingUID rt), mkRuntime (unhandled rt) (nextObjectId rt) (S (nextBindingUID rt))).

(** The runtime of a freshly loaded module: [_nextBindingUID = 16]. *)
Definition initial_runtime : runtime := mkRuntime [] 1 16.

(* ===================================================================== *)
(** * core/Binding.ts: formatters, filters, [Binding] and its reader *)
(* ===================================================================== *)

Module Binding.
Import Errors.

(** The functions a filter name can select: the entries of
    [Binding.filters], and [F_inherited] for a member that the registry, an
    object literal, inherits from [Object.prototype]. *)
Inductive filter_fn : Set :=
| F_not | F_notnot | F_or | F_then | F_tt
| F_string | F_uc | F_lc | F_blank
| F_float | F_int | F_decimal
| F_unique | F_pluck
| F_inherited (name : string).

(** One link of the chained [_filter] closure. *)
Inductive step : Type :=
| StepFilter (filter : filter_fn) (arg : option string)   (** [addFilter] *)
| StepI18n (type : option string)                         (** [i18n] *)
| StepMatch (values : list value)                         (** [match] *)
| StepNonMatch (values : list value).                     (** [nonMatch] *)

(** The [_filter] closure: the filter it was built on ([oldFilter]) and
    what it does after that. *)
Inductive chained : Type :=
| Chain (oldFilter : option chained) (s : step).

(** A [Binding]: [id] is the number after [util.BINDING_ID_PREFIX];
    [propertyName], [path] and [defaultValue] are what the reader class
    closes over. *)
Record Binding : Type := mkBinding {
  id : nat;
  propertyName : option string;
  path : option (list string);
  defaultValue : value;
  _filter : option chained;
}.

(** The own entries of [Binding.filters]. *)
Definition filters : list (string * filter_fn) :=
  [ ("!", F_not); ("not?", F_not); ("?", F_notnot); ("!!", F_notnot);
    ("or", F_or); ("then", F_then); ("tt", F_tt);
    ("s", F_string); ("str", F_string); ("string", F_string);
    ("uc", F_uc); ("lc", F_lc); ("blank", F_blank); ("_", F_blank);
    ("n", F_float); ("num", F_float); ("number", F_float);
    ("i", F_int); ("int", F_int); ("integer", F_int);
    ("dec", F_decimal); ("uniq", F_unique); ("pluck", F_pluck) ].

Definition own_filter (fmt : string) : option filter_fn :=
  match List.find (fun kv => String.eqb (fst kv) fmt) filters with
  | Some kv => Some (snd kv)
  | None => None
  end.

(** [Binding.filters[fmt]] when it is truthy: an own entry, or a member
    inherited from [Object.prototype]. *)
Definition lookup_filter (fmt : string) : option filter_fn :=
  match own_filter fmt with
  | Some f => Some f
  | None => if Js.mem fmt Js.Object_members then Some (F_inherited fmt) else None
  end.

Definition Object_prototype_toString : value := VFun (FNative ObjectProto "toString").
Definition Array_prototype_toString : value := VFun (FNative ArrayProto "toString").
Definition Array_prototype_map : value := VFun (FNative ArrayProto "map").

(** The filter of [_uniqueFormatter]: [strings] are the strings seen,
    [values] the other values seen. *)
Fixpoint unique_filter (l : list value) (strings : list string) (values : list value)
  : list value :=
  match l with
  | [] => []
  | v :: r =>
      if negb (Js.not_nullish v) then unique_filter r strings values
      else
        match v with
        | VStr s =>
            if Js.mem s strings then unique_filter r strings values
            else v :: unique_filter r (s :: strings) values
        | _ =>
            if existsb (Js.strict_eq v) values then unique_filter r strings values
            else v :: unique_filter r strings (values ++ [v])
        end
  end.

Section WithHost.
Context {host : Host}.

(** [_formatNotUndefined(v, f, u)]; [u = None] is an omitted third
    argument, whose default is [v]. *)
Definition _formatNotUndefined (v : value) (f : value -> M value) (u : option value)
  : M value :=
  if Js.not_nullish v then f v
  else mret (match u with Some x => x | None => v end).

(** [String] as it is passed to [_formatNotUndefined]. *)
Definition String_ (v : value) : M value :=
  s ← lift (Js.to_string v); mret (VStr s).

(** [parseFloat] as it is passed to [_formatNotUndefined]. *)
Definition parseFloat_ (v : value) : M value :=
  x ← lift (Js.parseFloat v); mret (VNum x).

Definition as_string (v : value) : M string :=
  match v with
  | VStr s => mret s
  | _ => lift (Js.to_string v)
  end.

(** [_stringFormatter]. The test of [typeof d] comes first, and [null] has
    type "object". An object other than an array that borrows both
    [toString] and [map] from [Array.prototype] is mapped by the host. *)
Fixpoint _stringFormatter (d : value) : M string :=
  if String.eqb (Js.typeof d) "object" then
    ts ← lift (Js.get d "toString");
    if Js.strict_eq ts Object_prototype_toString then
      _ ← logUnhandledException (err Binding_ObjectType None);
      mret "???"
    else
      is_array ←
        (if Js.strict_eq ts Array_prototype_toString then
           mp ← lift (Js.get d "map");
           mret (Js.strict_eq mp Array_prototype_map)
         else mret false : M bool);
      if is_array : bool then
        match d with
        | VArr _ elems =>
            ss ← (fix each (l : list value) : M (list string) :=
                    match l with
                    | [] => mret []
                    | e :: r =>
                        s ← _stringFormatter e;
                        rest ← each r;
                        mret (s :: rest)
                    end) elems;
            mret (JsString.join ", " ss)
        | VProto ArrayProto => mret ""
        | _ =>
            mapped ← lift (native_call ArrayProto "map" d []);
            joined ← lift (native_call ArrayProto "join" mapped [VStr ", "]);
            as_string joined
        end
      else
        r ← _formatNotUndefined d String_ (Some (VStr ""));
        as_string r
  else
    r ← _formatNotUndefined d String_ (Some (VStr ""));
    as_string r.

Definition _ucFormatter (d : value) : M value :=
  result ← _stringFormatter d;
  mret (VStr (if String.eqb result "" then result else toLocaleUpperCase result)).

Definition _lcFormatter (d : value) : M value :=
  result ← _stringFormatter d;
  mret (VStr (if String.eqb result "" then result else toLocaleLowerCase result)).

Definition _blankFormatter (d : value) : M value :=
  d' ← (if Js.not_nullish d then
          m ← lift (Js.get d "valueOf");
          match Js.callable m with
          | Some f => lift (Js.call_simple f d [])
          | None => mret d
          end
        else mret d : M value);
  o ← freshObjectId;
  f1 ← freshObjectId;
  f2 ← freshObjectId;
  mret (VObj o [("toString", VFun (FConst f1 (VStr ""))); ("valueOf", VFun (FConst f2 d'))]).

Definition _floatFormatter (d : value) : M value :=
  _formatNotUndefined d parseFloat_ None.

Definition _intFormatter (d : value) : M value :=
  x ← _formatNotUndefined d parseFloat_ (Some (VNum zero));
  n ← lift (Js.to_number x);
  let result := JsNumber.Math_round n in
  mret (VNum (if PrimFloat.ltb zero result then result
              else if PrimFloat.ltb result zero then result
              else zero)).

Definition toFixed_ (x fractionDigits : float) : M string :=
  match JsNumber.toFixed x fractionDigits with
  | Some s => mret s
  | None => throw RangeError
  end.

Definition _decimalFormatter (n : value) (decimals : value) : M value :=
  stop ← (if Js.strict_eq n VUndef then mret true else lift (Js.isNaN n) : M bool);
  if stop : bool then mret (VStr "")
  else
    decimals' ← lift (Js.to_number decimals);
    x ← lift (Js.parseFloat n);
    a ← toFixed_ x (decimals' + one)%float;
    b ← toFixed_ (JsNumber.ofString (a +:+ "1")) decimals';
    mret (VStr b).

Definition _uniqueFormatter (d : value) : M value :=
  d' ← (match managedListToArray d with
        | Some l => i ← freshObjectId; mret (VArr i l)
        | None => mret d
        end : M value);
  if Js.isArray d' then
    i ← freshObjectId;
    mret (VArr i (unique_filter (match d' with VArr _ l => l | _ => [] end) [] []))
  else mret d'.

Definition _pluckFormatter (d : value) (p : value) : M value :=
  let elems :=
    match d, managedListToArray d with
    | VArr _ l, _ => Some l
    | VProto ArrayProto, _ => Some []
    | _, Some l => Some l
    | _, None => None
    end in
  match elems with
  | None => mret d
  | Some l =>
      key ← lift (Js.to_string p);
      l' ← (fix each (l : list value) : M (list value) :=
              match l with
              | [] => mret []
              | v :: r =>
                  x ← (if Js.ToBoolean v then lift (Js.get v key) else mret v : M value);
                  rest ← each r;
                  mret (x :: rest)
              end) l;
      i ← freshObjectId;
      mret (VArr i l')
  end.

(** Calling the function a filter name selected, as [filter(v, arg)]. An
    inherited member is called with no receiver; the inherited [__proto__]
    is not a function. *)
Definition apply_filter (f : filter_fn) (v : value) (arg : option string) : M value :=
  let arg' := match arg with Some a => VStr a | None => VUndef end in
  match f with
  | F_not => mret (VBool (negb (Js.ToBoolean v)))
  | F_notnot => mret (VBool (Js.ToBoolean v))
  | F_or => mret (if Js.ToBoolean v then v else arg')
  | F_then =>
      let x := if Js.ToBoolean v then arg' else v in
      mret (if Js.ToBoolean x then x else VUndef)
  | F_tt => lift (tt v arg)
  | F_string => s ← _stringFormatter v; mret (VStr s)
  | F_uc => _ucFormatter v
  | F_lc => _lcFormatter v
  | F_blank => _blankFormatter v
  | F_float => _floatFormatter v
  | F_int => _intFormatter v
  | F_decimal => _decimalFormatter v arg'
  | F_unique => _uniqueFormatter v
  | F_pluck => _pluckFormatter v arg'
  | F_inherited name =>
      if String.eqb name "__proto__" then throw TypeError
      else lift (Js.call_simple (FNative ObjectProto name) VUndef [v; arg'])
  end.

Definition apply_step (s : step) (v : value) : M value :=
  match s with
  | StepFilter filter arg => apply_filter filter v arg
  | StepI18n type => lift (tt v type)
  | StepMatch values => mret (VBool (existsb (fun w => Js.strict_eq w v) values))
  | StepNonMatch values => mret (VBool (negb (existsb (fun w => Js.strict_eq w v) values)))
  end.

(** Calling a [_filter] closure: [if (oldFilter) v = oldFilter(v, ...)],
    then this link. *)
Fixpoint run_filter (c : chained) (v : value) : M value :=
  match c with
  | Chain oldFilter s =>
      v' ← (match oldFilter with
            | Some old => run_filter old v
            | None => mret v
            end : M value);
      apply_step s v'
  end.

Definition set_filter (this : Binding) (c : chained) : Binding :=
  mkBinding (id this) (propertyName this) (path this) (defaultValue this) (Some c).

(** The name and argument [addFilter] splits its format into. *)
Definition split_format (fmt : string) : string * option string :=
  let fmt := JsString.trim fmt in
  let argIdx := JsString.indexOf fmt "(" in
  if (0 <? argIdx) && String.eqb (JsString.slice fmt (-1) None) ")" then
    (JsString.trim (JsString.slice fmt 0 (Some argIdx)),
     Some (JsString.trim (JsString.slice fmt (argIdx + 1) (Some (-1)))))
  else (fmt, None).

(** [addFilter(fmt)] *)
Definition addFilter (this : Binding) (fmt : string) : M Binding :=
  let '(fmt, arg) := split_format fmt in
  match lookup_filter fmt with
  | None => throw (err Binding_UnknownFilter (Some fmt))
  | Some filter => mret (set_filter this (Chain (_filter this) (StepFilter filter arg)))
  end.

(** [i18n(type)], [match(...values)] and [nonMatch(...values)] *)
Definition i18n (this : Binding) (type : option string) : Binding :=
  set_filter this (Chain (_filter this) (StepI18n type)).

Definition match_ (this : Binding) (values : list value) : Binding :=
  set_filter this (Chain (_filter this) (StepMatch values)).

Definition nonMatch (this : Binding) (values : list value) : Binding :=
  set_filter this (Chain (_filter this) (StepNonMatch values)).

(** The loop that turns leading [!] characters of the property name into
    [!] filters; it returns the name that is left. *)
Fixpoint strip_bangs (this : Binding) (propertyName : string) : M (Binding * string) :=
  match propertyName with
  | String "!" rest =>
      this' ← addFilter this "!";
      strip_bangs this' rest
  | _ => mret (this, propertyName)
  end.

Fixpoint addFilters (this : Binding) (parts : list string) : M Binding :=
  match parts with
  | [] => mret this
  | part :: rest =>
      this' ← addFilter this part;
      addFilters this' rest
  end.

(** [new Binding(source, defaultValue)]; [source = None] is [undefined]. *)
Definition new_Binding (source : option string) (defaultValue : value) : M Binding :=
  uid ← freshBindingUID;
  let this := mkBinding uid None None defaultValue None in
  match source with
  | None => mret this
  | Some propertyName =>
      match JsString.split "|" propertyName with
      | [] => mret this
      | first :: parts =>
          match JsString.split "." first with
          | [] => mret this
          | propertyName :: path =>
              '(this, propertyName) ← strip_bangs this propertyName;
              let path := match path with [] => None | _ => Some path end in
              this ← addFilters this parts;
              mret (mkBinding (id this) (Some propertyName) path defaultValue (_filter this))
          end
      end
  end.

(** [bind(propertyName, defaultValue)] *)
Definition bind (propertyName : option string) (defaultValue : value) : M Binding :=
  new_Binding propertyName defaultValue.

(** The nested-property loop of the reader. *)
Fixpoint walk (path : list string) (result : value) : outcome value :=
  match path with
  | [] => mret result
  | p :: rest =>
      if Js.not_nullish result then
        found ← Js.has p result;
        result' ←
          (if found : bool then Js.get result p
           else
             g ← Js.get result "get";
             match Js.callable g with
             | Some f => Js.call_simple f result [VStr p]
             | None => Js.get result p
             end : outcome value);
        walk rest result'
      else mret result
  end.

(** [Reader.getValue] of the reader made for [boundParent]; [hint = None]
    is a call without arguments. *)
Definition getValue (self : Binding) (boundParent : value) (hint : option value) : M value :=
  result ← (match hint with
            | Some propertyHint => mret propertyHint
            | None =>
                match propertyName self with
                | Some p => lift (Js.get boundParent p)
                | None => mret VUndef
                end
            end : M value);
  result ← (match path self with
            | Some path => lift (walk path result)
            | None => mret result
            end : M value);
  result ← (match _filter self with
            | Some f => run_filter f result
            | None => mret result
            end : M value);
  mret (if Js.strict_eq result VUndef && negb (Js.strict_eq (defaultValue self) VUndef)
        then defaultValue self else result).

End WithHost.
End Binding.

(* ===================================================================== *)
(** * core/Binding.ts: [Binding.Bound] *)
(* ===================================================================== *)

Module Bound.
Import Errors.

(** A consumer component, as [updateComponents] sees it: [hook id] is the
    property [component[id]] when it is a function, applied to a value it
    returns ([None]) or throws ([Some e]). What a hook does to anything but
    the call itself is not part of the model; in particular it does not
    change the list it is called from. *)
Record Component : Type := mkComponent {
  cid : nat;
  hook : nat -> option (value -> option exn);
}.

(** A [Bound] instance: the managed list of consumers ([count] is its
    length) with the fields the class adds. [parent] is the key of the
    parent instance in the store. *)
Record Bound : Type := mkBound {
  binding : Binding.Binding;
  parent : option nat;
  propertyName : option string;
  components : list Component;
  _updatedValue : option bool;
  _lastValue : value;
}.

(** What can be observed of a run: a call of a reader and a call of an
    update hook. *)
Inductive event : Type :=
| Read (key : nat) (hint : option value)
| Update (component : nat) (id : nat) (v : value).

(** The heap of [Bound] instances, the runtime and the trace. *)
Record world : Type := mkWorld {
  bounds : gmap nat Bound;
  rt : runtime;
  trace : list event;
}.

Definition count (this : Bound) : nat := List.length (components this).

(** [hasValue()]: [!!this._updatedValue] *)
Definition hasValue (this : Bound) : bool :=
  match _updatedValue this with
  | Some b => b
  | None => false
  end.

Definition set_cache (this : Bound) (updated : bool) (last : value) : Bound :=
  mkBound (binding this) (parent this) (propertyName this) (components this)
          (Some updated) last.

(** A new instance for a binding whose parent instance, if it has one, is
    already found: no consumers, nothing cached. *)
Definition new_Bound (b : Binding.Binding) (parent : option nat) : Bound :=
  mkBound b parent (Binding.propertyName b) [] None VUndef.

Definition log_event (e : event) (w : world) : world :=
  mkWorld (bounds w) (rt w) (trace w ++ [e]).

Definition run_rt {A} (m : M A) (w : world) : outcome A * world :=
  let '(o, r) := m (rt w) in (o, mkWorld (bounds w) r (trace w)).

(** The body of the [forEach] callback for one component: the [try] block
    and its [catch]. *)
Definition notify (id : nat) (v : value) (component : Component) (w : world) : world :=
  match hook component id with
  | None => snd (run_rt (logUnhandledException (err Binding_NoComponent None)) w)
  | Some f =>
      let w := log_event (Update (cid component) id v) w in
      match f v with
      | None => w
      | Some e => snd (run_rt (logUnhandledException e) w)
      end
  end.

(** Modelled from the spec: [ManagedList.forEach], which is not in the
    sources at hand; "every consumer is invoked with the new value", in
    list order. *)
Definition forEach (l : list Component) (f : Component -> world -> world) (w : world)
  : world :=
  fold_left (fun w c => f c w) l w.

Section Propagation.
(** [P] is the state of the bound parent components at the time of a
    call. [reader key] is [this._reader.getValue] of the instance stored
    at [key]: a [BoundReader], which may read the parent component and the
    other bound instances. *)
Context {P : Type}.
Variable reader : nat -> gmap nat Bound -> P -> option value -> M value.

(** [get value()] *)
Definition value_of (key : nat) (p : P) (w : world) : option (outcome value * world) :=
  match bounds w !! key with
  | None => None
  | Some this =>
      if hasValue this then Some (Normal (_lastValue this), w)
      else Some (run_rt (reader key (bounds w) p None) (log_event (Read key None) w))
  end.

(** [updateComponents(_v)]; [hint = None] is a call without arguments. The
    fuel bounds the walk up the chain of parents; [None] is the result
    when it runs out or when a key is not in the store. *)
Fixpoint updateComponents (fuel : nat) (key : nat) (hint : option value) (p : P) (w : world)
  : option (outcome unit * world) :=
  match fuel with
  | O => None
  | S fuel' =>
      match bounds w !! key with
      | None => None
      | Some this =>
          if (count this =? 0)%nat && negb (bool_decide (is_Some (parent this))) then
            Some (Normal (),
                  mkWorld (<[key := set_cache this false (_lastValue this)]> (bounds w))
                          (rt w) (trace w))
          else
            match run_rt (reader key (bounds w) p hint) (log_event (Read key hint) w) with
            | (Throw e, w) => Some (Throw e, w)
            | (Normal v, w) =>
                if negb (hasValue this) || negb (Js.strict_eq (_lastValue this) v) then
                  let w := mkWorld (<[key := set_cache this true v]> (bounds w))
                                   (rt w) (trace w) in
                  match parent this with
                  | Some parent => updateComponents fuel' parent None p w
                  | None =>
                      let id := Binding.id (binding this) in
                      Some (Normal (), forEach (components this) (notify id v) w)
                  end
                else Some (Normal (), w)
            end
      end
  end.

End Propagation.
End Bound.

(* ===================================================================== *)
(** * core/ManagedService.ts *)
(* ===================================================================== *)

Module Service.

(** A service object: its identity and the [name] its constructor set. *)
Record ManagedService : Type := mkService {
  sid : nat;
  name : string;
}.

Instance ManagedService_eq_dec : EqDecision ManagedService.
Proof. solve_decision. Defined.

(** Modelled from the spec: [ManagedReference], which is not in the sources
    at hand; a "zero-or-one slot referencing a managed object, with optional
    type restriction and optional event propagation flag". [exclusive] says
    that the reference owns its target exclusively. *)
Record ManagedReference : Type := mkReference {
  target : option ManagedService;
  restricted : bool;     (** [restrict(ManagedService)] was applied *)
  propagating : bool;    (** [propagateEvents()] was applied *)
  exclusive : bool;
}.

(** Modelled from the spec: whether a reference made by
    [new ManagedReference(...)] owns its target exclusively. Neither the
    sources at hand nor the spec say so; the registry is modelled for both
    answers. *)
Class References : Type := {
  owns_exclusively : bool;
}.

(** Modelled from the spec: [ManagedMap], which is not in the sources at
    hand; a "key-unique mapping of managed objects", here the finite map
    [services] of [ServiceContainer.instance], keyed by upper-cased name.
    [destroyed] lists the services destroyed so far. *)
Record ServiceContainer : Type := mkContainer {
  services : gmap string ManagedReference;
  destroyed : list ManagedService;
}.

Definition empty_container : ServiceContainer := mkContainer ∅ [].

(** Modelled from the spec: the setter of [ManagedReference.target];
    "assigning a new target destroys the previous target if the reference
    owns it exclusively". The result is the reference and the object
    destroyed, if any. *)
Definition set_target (ref : ManagedReference) (t : ManagedService)
  : ManagedReference * option ManagedService :=
  (mkReference (Some t) (restricted ref) (propagating ref) (exclusive ref),
   match target ref with
   | Some old =>
       if exclusive ref && negb (bool_decide (old = t)) then Some old else None
   | None => None
   end).

Definition blank_name : exn := JsError "[Service] Service name cannot be blank".

(** [ManagedService.find(name)]: [ref && ref.target] *)
Definition find (name : string) (c : ServiceContainer) : option ManagedService :=
  match services c !! JsString.toUpperCase name with
  | Some ref => target ref
  | None => None
  end.

Section WithReferences.
Context {references : References}.

(** [new ManagedReference(t).restrict(ManagedService).propagateEvents()] *)
Definition new_reference (t : option ManagedService) : ManagedReference :=
  mkReference t true true owns_exclusively.

(** [register()] *)
Definition register (this : ManagedService) (c : ServiceContainer) : outcome ServiceContainer :=
  let ucName := JsString.toUpperCase (name this) in
  if String.eqb ucName "" then Throw blank_name
  else
    match services c !! ucName with
    | Some ref =>
        let '(ref', old) := set_target ref this in
        Normal (mkContainer (<[ucName := ref']> (services c))
                            (match old with
                             | Some o => destroyed c ++ [o]
                             | None => destroyed c
                             end))
    | None =>
        Normal (mkContainer (<[ucName := new_reference (Some this)]> (services c))
                            (destroyed c))
    end.

(** The part of the [service(name)] decorator that touches the container:
    a placeholder reference for a name that has none. *)
Definition service (name : string) (c : ServiceContainer) : ServiceContainer :=
  let ucName := JsString.toUpperCase name in
  match services c !! ucName with
  | Some _ => c
  | None => mkContainer (<[ucName := new_reference None]> (services c)) (destroyed c)
  end.

End WithReferences.

End Service.

(* ===================================================================== *)
(** * ui/controllers/UIModalController.ts *)
(* ===================================================================== *)

Module UIModalController.

(** Rendered output, as far as the controller reads and writes it. *)
Record Output : Type := mkOutput {
  element : bool;                          (** [output.element] is truthy *)
  modalShadeClickToClose : option bool;
  modalShadeOpacity : option float;
  placement : option nat;                  (** the number of a [UIRenderPlacement] *)
  placementRef : option nat;
}.

(** [!output.placement]: the placement is undefined or the number 0. *)
Definition no_placement (p : option nat) : bool :=
  match p with
  | None | Some O => true
  | Some (S _) => false
  end.

(** An instance of a modal class. *)
Record Renderable : Type := mkRenderable {
  class : nat;
  instance : nat;
}.

(** Events that reach the handler given to [propagateChildEvents]. *)
Inductive Event : Type :=
| ComponentEvent (name : string)
| OtherEvent (name : string).

Section WithRenderContext.
(** [RC] stands for the render callbacks of [UIRenderContext], which is not
    in the sources at hand: [next rc output] is the callback that a call
    [rc(output, afterRender)] returns. *)
Context {RC : Type}.
Variable next : RC -> option Output -> RC.

(** What [onModalChange] finds around the controller: the reference
    component and the callback [application.renderContext.getRenderCallback()]
    returns, when there is an application with a render context. *)
Record Surroundings : Type := mkSurroundings {
  referenceComponent : option nat;
  renderCallback : option RC;
}.

(** The controller with its observer: [proxy] says that a [callbackProxy]
    has been handed to a modal component's [render]. *)
Record Controller : Type := mkController {
  modal : option Renderable;
  placement_ : nat;
  shadeOpacity : option float;
  shadeClickToClose : bool;
  _ModalClass : option nat;
  _renderCallback : option RC;
  proxy : bool;
  nextInstance : nat;
}.

(** A new controller: [placement = UIRenderPlacement.DIALOG], whose number
    is [dialog]. *)
Definition new_Controller (dialog : nat) (ModalClass : option nat) : Controller :=
  mkController None dialog None true ModalClass None false 0.

Definition with_modal (c : Controller) (m : option Renderable) : Controller :=
  mkController m (placement_ c) (shadeOpacity c) (shadeClickToClose c)
               (_ModalClass c) (_renderCallback c) (proxy c) (nextInstance c).

Definition with_callback (c : Controller) (rc : option RC) (pr : bool) : Controller :=
  mkController (modal c) (placement_ c) (shadeOpacity c) (shadeClickToClose c)
               (_ModalClass c) rc pr (nextInstance c).

(** [onModalChange()] of the observer. *)
Definition onModalChange (s : Surroundings) (c : Controller) : Controller :=
  let c := match _renderCallback c with
           | Some rc => with_callback c (Some (next rc None)) (proxy c)
           | None => c
           end in
  match modal c, referenceComponent s, renderCallback s with
  | Some _, Some _, Some rc => with_callback c (Some rc) true
  | _, _, _ => c
  end.

(** An assignment to the managed property [modal], which the observer
    follows. *)
Definition set_modal (s : Surroundings) (c : Controller) (m : option Renderable) : Controller :=
  onModalChange s (with_modal c m).

(** [showModal()] *)
Definition showModal (s : Surroundings) (c : Controller) : Controller :=
  match _ModalClass c with
  | Some cls =>
      let c' := mkController (modal c) (placement_ c) (shadeOpacity c) (shadeClickToClose c)
                             (_ModalClass c) (_renderCallback c) (proxy c)
                             (S (nextInstance c)) in
      set_modal s c' (Some (mkRenderable cls (nextInstance c)))
  | None => c
  end.

(** [closeModal()] *)
Definition closeModal (s : Surroundings) (c : Controller) : Controller :=
  set_modal s c None.

(** The handler of the constructor; the second component is the event it
    lets through. *)
Definition handle (s : Surroundings) (e : Event) (c : Controller) : Controller * option Event :=
  match e with
  | ComponentEvent name =>
      if String.eqb name "ShowModal" then (showModal s c, None)
      else if String.eqb name "CloseModal" then (closeModal s c, None)
      else (c, Some e)
  | OtherEvent _ => (c, None)
  end.

(** The output [callbackProxy] passes on, with the controller's defaults
    filled in. *)
Definition decorate (s : Surroundings) (c : Controller) (o : Output) : Output :=
  let o1 := match modalShadeClickToClose o with
            | None => mkOutput (element o) (Some (shadeClickToClose c)) (modalShadeOpacity o)
                               (placement o) (placementRef o)
            | Some _ => o
            end in
  let o2 := match modalShadeOpacity o1 with
            | None => mkOutput (element o1) (modalShadeClickToClose o1) (shadeOpacity c)
                               (placement o1) (placementRef o1)
            | Some _ => o1
            end in
  if no_placement (placement o2) then
    mkOutput (element o2) (modalShadeClickToClose o2) (modalShadeOpacity o2)
             (Some (placement_ c)) (referenceComponent s)
  else o2.

(** [callbackProxy(output, afterRender)] *)
Definition callbackProxy (s : Surroundings) (output : option Output) (c : Controller) : Controller :=
  match _renderCallback c with
  | None => c
  | Some rc =>
      match output with
      | Some o =>
          if element o then with_callback c (Some (next rc (Some (decorate s c o)))) (proxy c)
          else set_modal s (with_callback c (Some (next rc None)) (proxy c)) None
      | None => set_modal s (with_callback c (Some (next rc None)) (proxy c)) None
      end
  end.

(** What can happen to a controller: a child event arrives, or a modal
    component calls the proxy it was given. *)
Inductive action : Type :=
| ChildEvent (e : Event)
| ProxyCall (output : option Output).

Definition possible (a : action) (c : Controller) : bool :=
  match a with
  | ChildEvent _ => true
  | ProxyCall _ => proxy c
  end.

Definition perform (s : Surroundings) (a : action) (c : Controller) : Controller :=
  match a with
  | ChildEvent e => fst (handle s e c)
  | ProxyCall output => callbackProxy s output c
  end.

(** The controllers that a new controller can become. *)
Inductive reachable (dialog : nat) (ModalClass : option nat) : Controller -> Prop :=
| reach_new : reachable dialog ModalClass (new_Controller dialog ModalClass)
| reach_step s a c :
    reachable dialog ModalClass c ->
    possible a c = true ->
    reachable dialog ModalClass (perform s a c).

End WithRenderContext.
End UIModalController.

(* ===================================================================== *)
(** * ui/controllers/UIModalController.ts: the reference component *)
(* ===================================================================== *)

Module ReferenceComponent.

(** What the loop of [_getReferenceComponent] tells apart: a [UIComponent],
    a [UIRenderableController] with its [content], and any other
    renderable. *)
Inductive UIRenderable : Type :=
| IsComponent (id : nat)
| IsController (content : option UIRenderable)
| IsOther (id : nat).

(** The [while] loop, one iteration per unit of fuel: [None] when the fuel
    runs out, [Some None] when the loop ends without a [return]. A
    renderable that is neither a component nor a controller leaves the
    loop variable as it is. *)
Fixpoint reference_loop (fuel : nat) (renderable : option UIRenderable)
  : option (option nat) :=
  match fuel with
  | O => None
  | S fuel' =>
      match renderable with
      | None => Some None
      | Some (IsComponent id) => Some (Some id)
      | Some (IsController content) => reference_loop fuel' content
      | Some (IsOther _) => reference_loop fuel' renderable
      end
  end.

(** [_getReferenceComponent()] for a controller with the given content. *)
Definition _getReferenceComponent (fuel : nat) (content : option UIRenderable)
  : option (option nat) :=
  reference_loop fuel (Some (IsController content)).

(** The number of controllers on the way down the [content] links. *)
Fixpoint depth (r : UIRenderable) : nat :=
  match r with
  | IsController content =>
      S (match content with
         | Some c => depth c
         | None => O
         end)
  | _ => O
  end.

(** What the [content] links end in. *)
Fixpoint innermost (r : UIRenderable) : option UIRenderable :=
  match r with
  | IsController content =>
      match content with
      | Some c => innermost c
      | None => None
      end
  | _ => Some r
  end.

End ReferenceComponent.

(* ===================================================================== *)
(** * ui/controls/UISpacer.ts *)
(* ===================================================================== *)

Module UISpacer.

(** A spacer, as far as its constructor goes: the [dimensions] object, by
    property name, and [shrinkwrap]. The [style] field, which is taken from
    the current theme, is left out. *)
Record UISpacer : Type := mkSpacer {
  dimensions : gmap string value;
  shrinkwrap : bool;
}.

Definition defined (v : value) : bool := negb (Js.strict_eq v VUndef).

(** [o.p] on a table of properties. *)
Definition prop (o : gmap string value) (p : string) : value :=
  match o !! p with
  | Some v => v
  | None => VUndef
  end.

(** [new UISpacer(width, height)]; [base] is the [dimensions] object that
    the constructor of [UIControl] leaves, and [VUndef] stands for an
    omitted argument. The field initialisers run after [super()] and before
    the body. *)
Definition new_UISpacer (base : gmap string value) (width height : value) : UISpacer :=
  let this := mkSpacer base false in
  if defined width || defined height then
    mkSpacer
      (<["shrink" := VNum 1]>
         (<["grow" := VNum 0]>
            (<["height" := if defined height then height else prop (dimensions this) "height"]>
               (<["width" := if defined width then width else prop (dimensions this) "width"]>
                  (dimensions this)))))
      true
  else this.

End UISpacer.

(* ===================================================================== *)
(** * The built-ins on known values *)
(* ===================================================================== *)

Module BuiltinFacts.
Import JsNumber.

Example round_ties_up :
  (Math_round 2.5, Math_round (-2.5), Math_round 3.7) = (3, -2, 4)%float.
Proof. vm_compute. reflexivity. Qed.

Example round_below_half :
  (Math_round 0.49999999999999994, Math_round (-0.4), Math_round (-0.5))
  = (zero, neg_zero, neg_zero).
Proof. vm_compute. reflexivity. Qed.

Example toFixed_rounds_the_exact_value :
  (toFixed 1.005 2, toFixed 1.45 1, toFixed 2.5 0, toFixed (-0.0001) 2)
  = (Some "1.00", Some "1.4", Some "3", Some "-0.00").
Proof. vm_compute. reflexivity. Qed.

Example toFixed_digit_range :
  (toFixed 5 101, toFixed 5 (-1), toFixed 5 0, toFixed 1e21 2)
  = (None, None, Some "5", Some "1e+21").
Proof. vm_compute. reflexivity. Qed.

Example toString_shortest :
  (toString 0.1, toString 0.30000000000000004, toString 100, toString (-4.5), toString 1e23)
  = ("0.1", "0.30000000000000004", "100", "-4.5", "1e+23").
Proof. vm_compute. reflexivity. Qed.

Example toString_exponent_forms :
  (toString 1e21, toString 123456789012345680000, toString 0.000001, toString 1e-7,
   toString 5e-324)
  = ("1e+21", "123456789012345680000", "0.000001", "1e-7", "5e-324").
Proof. vm_compute. reflexivity. Qed.

Example ofString_literals :
  (ofString "4.0001", ofString "", ofString " 12 ", ofString "0x1F", ofString "1e3")
  = (4.0001, 0, 12, 31, 1000)%float.
Proof. vm_compute. reflexivity. Qed.

Example ofString_rejects :
  (PrimFloat.is_nan (ofString "12px"), PrimFloat.is_nan (ofString "0x"),
   PrimFloat.is_nan (ofString "-0x10"))
  = (true, true, true).
Proof. vm_compute. reflexivity. Qed.

Example parseFloat_prefix :
  (parseFloat_string "  3.7abc", parseFloat_string ".5e2x", parseFloat_string "1e+",
   parseFloat_string "-0")
  = (3.7, 50, 1, -0)%float.
Proof. vm_compute. reflexivity. Qed.

Example split_and_slice :
  (JsString.split "|" "count|i|dec(2)", JsString.split "." "",
   JsString.slice "dec(2)" (-1) None, JsString.slice "dec(2)" 4 (Some (-1)),
   JsString.indexOf "dec(2)" "(", JsString.trim "  a b  ")
  = (["count"; "i"; "dec(2)"], [""], ")", "2", 3, "a b").
Proof. vm_compute. reflexivity. Qed.

(** A value is strictly equal to itself unless it is NaN. *)
Lemma strict_eq_refl (v : value) :
  (forall x, v = VNum x -> PrimFloat.is_nan x = false) ->
  Js.strict_eq v v = true.
Proof.
  intros Hnan. destruct v as [| |b|x|s|i l|i l|p|f]; simpl; try reflexivity.
  - destruct b; reflexivity.
  - specialize (Hnan x eq_refl). unfold PrimFloat.is_nan in Hnan.
    destruct (PrimFloat.eqb x x); [reflexivity | discriminate Hnan].
  - apply String.eqb_refl.
  - apply Nat.eqb_refl.
  - apply Nat.eqb_refl.
  - apply bool_decide_eq_true. reflexivity.
  - destruct f as [o n|i t|i r]; simpl.
    + rewrite String.eqb_refl, bool_decide_eq_true_2 by reflexivity. reflexivity.
    + apply Nat.eqb_refl.
    + apply Nat.eqb_refl.
Qed.

Lemma strict_eq_NaN : Js.strict_eq (VNum nan) (VNum nan) = false.
Proof. vm_compute. reflexivity. Qed.

Example err_message :
  Errors.err Errors.Binding_UnknownFilter (Some "nope")
  = JsError "[Binding] Unknown binding filter: nope".
Proof. vm_compute. reflexivity. Qed.

End BuiltinFacts.

(* ===================================================================== *)
(** * Properties of the formatters and of [Binding] *)
(* ===================================================================== *)

(** A host that adds nothing to the fragment: [tt] returns its argument,
    the locale maps ASCII letters, other built-ins return [undefined].
    Examples are run on it. *)
Definition bare_host : Host := {|
  tt := fun v _ => Normal v;
  toLocaleUpperCase := JsString.toUpperCase;
  toLocaleLowerCase := fun s => s;
  native_call := fun _ _ _ _ => Normal VUndef;
  function_own := fun _ _ => None;
  function_source := fun _ => "function () { [native code] }";
  managedListToArray := fun _ => None;
|}.

Module BindingFacts.
Import Errors Binding.

(** The links of a [_filter] closure, oldest first. *)
Fixpoint steps (c : chained) : list step :=
  match c with
  | Chain oldFilter s =>
      match oldFilter with
      | Some old => steps old
      | None => []
      end ++ [s]
  end.

Definition steps_of (this : Binding) : list step :=
  match _filter this with
  | Some c => steps c
  | None => []
  end.

(** The step [addFilter] adds for a format, when its name selects a
    filter. *)
Definition selected (fmt : string) : option step :=
  match lookup_filter (fst (split_format fmt)) with
  | Some f => Some (StepFilter f (snd (split_format fmt)))
  | None => None
  end.

Fixpoint all_selected (parts : list string) : option (list step) :=
  match parts with
  | [] => Some []
  | part :: rest =>
      match selected part, all_selected rest with
      | Some s, Some l => Some (s :: l)
      | _, _ => None
      end
  end.

Section WithHost.
Context {host : Host}.

(** Applying steps one after the other, first to last. *)
Fixpoint run_steps (l : list step) (v : value) : M value :=
  match l with
  | [] => mret v
  | s :: rest => v' ← apply_step s v; run_steps rest v'
  end.

Lemma run_steps_snoc (l : list step) (s : step) (v : value) (rt : runtime) :
  run_steps (l ++ [s]) v rt = (v' ← run_steps l v; apply_step s v') rt.
Proof.
  revert v rt. induction l as [|s0 l IH]; intros v rt; simpl.
  - unfold mbind, M_bind, mret, M_ret.
    destruct (apply_step s v rt) as [[a|e] rt']; reflexivity.
  - unfold mbind, M_bind in *.
    destruct (apply_step s0 v rt) as [[a|e] rt']; [apply IH | reflexivity].
Qed.

(** A [_filter] closure applies its links oldest first. *)
Lemma run_filter_steps (c : chained) (v : value) (rt : runtime) :
  run_filter c v rt = run_steps (steps c) v rt.
Proof.
  revert c v rt.
  fix IH 1. intros [oldFilter s] v rt.
  destruct oldFilter as [old|]; simpl.
  - rewrite run_steps_snoc. unfold mbind, M_bind. rewrite (IH old v rt). reflexivity.
  - unfold mbind, M_bind, mret, M_ret.
    destruct (apply_step s v rt) as [[a|e] rt']; reflexivity.
Qed.

Lemma addFilter_selected (this : Binding) (fmt : string) (rt : runtime) :
  addFilter this fmt rt =
    match selected fmt with
    | Some s => (Normal (set_filter this (Chain (_filter this) s)), rt)
    | None => (Throw (err Binding_UnknownFilter (Some (fst (split_format fmt)))), rt)
    end.
Proof.
  unfold addFilter, selected.
  destruct (split_format fmt) as [name arg]; simpl.
  destruct (lookup_filter name); reflexivity.
Qed.

Lemma steps_of_set_filter (this : Binding) (s : step) :
  steps_of (set_filter this (Chain (_filter this) s)) = (steps_of this ++ [s])%list.
Proof. unfold steps_of; simpl. destruct (_filter this); reflexivity. Qed.

(** Filters given as a list of segments are chained in segment order, and
    the first segment that selects no filter stops the construction. *)
Lemma addFilters_in_order (parts : list string) (this : Binding) (rt : runtime) :
  match addFilters this parts rt with
  | (Normal this', rt') =>
      rt' = rt /\ exists l, all_selected parts = Some l /\ steps_of this' = (steps_of this ++ l)%list
  | (Throw _, _) => all_selected parts = None
  end.
Proof.
  revert this. induction parts as [|part rest IH]; intros this; simpl.
  - split; [reflexivity|]. exists []. split; [reflexivity|]. symmetry; apply app_nil_r.
  - unfold mbind, M_bind. rewrite addFilter_selected.
    destruct (selected part) as [s|]; [|reflexivity].
    specialize (IH (set_filter this (Chain (_filter this) s))).
    destruct (addFilters _ rest rt) as [[this'|e] rt'].
    + destruct IH as [-> (l & -> & Hl)]. split; [reflexivity|].
      exists (s :: l). split; [reflexivity|].
      rewrite Hl, steps_of_set_filter, <- app_assoc. reflexivity.
    + rewrite IH. reflexivity.
Qed.

(** ** The reader *)

Lemma has_false_get (p : string) (v : value) :
  Js.has p v = Normal false -> Js.get v p = Normal VUndef.
Proof.
  intros Hhas. unfold Js.has in Hhas.
  destruct (Js.is_primitive v) eqn:Hprim; [discriminate|].
  destruct (Js.own_prop v p) eqn:Hown; [destruct (Js.inherited_prop v p); discriminate|].
  destruct (Js.inherited_prop v p) eqn:Hinh; [discriminate|].
  unfold Js.get. rewrite Hown, Hinh.
  destruct v; try reflexivity; discriminate Hprim.
Qed.

(** The top-level value of a read without hint is the value of the direct
    property read, whatever [get] method the parent has. *)
Lemma getValue_hint_is_direct_read (self : Binding) (boundParent : value) (p : string)
    (top : value) :
  propertyName self = Some p ->
  Js.get boundParent p = Normal top ->
  getValue self boundParent None = getValue self boundParent (Some top).
Proof.
  intros Hp Hget. unfold getValue. rewrite Hp, Hget. reflexivity.
Qed.

(** What the reader makes of a top-level value: the nested path, segment
    by segment, then the filters, oldest first, then the default. The
    bound parent plays no part in it. *)
Definition resolve (self : Binding) (top : value) : M value :=
  v ← lift (walk (match path self with Some l => l | None => [] end) top);
  r ← run_steps (steps_of self) v;
  mret (if Js.strict_eq r VUndef && negb (Js.strict_eq (defaultValue self) VUndef)
        then defaultValue self else r).

(** A read is the choice of the top-level value followed by [resolve]. *)
Lemma getValue_resolve (self : Binding) (boundParent : value) (hint : option value)
    (rt : runtime) :
  getValue self boundParent hint rt
  = (top ← (match hint with
            | Some propertyHint => mret propertyHint
            | None => match propertyName self with
                      | Some p => lift (Js.get boundParent p)
                      | None => mret VUndef
                      end
            end : M value);
     resolve self top) rt.
Proof.
  unfold getValue, resolve, steps_of.
  cbv beta delta [mbind M_bind].
  destruct (match hint with
            | Some propertyHint => mret propertyHint
            | None => match propertyName self with
                      | Some p => lift (Js.get boundParent p)
                      | None => mret VUndef
                      end
            end rt) as [[top|e] rt1]; [|reflexivity].
  destruct (path self) as [l|]; unfold lift, mret, M_ret.
  - destruct (walk l top) as [v|e]; [|reflexivity].
    destruct (_filter self) as [c|]; [rewrite run_filter_steps|]; reflexivity.
  - cbn [walk mret outcome_ret].
    destruct (_filter self) as [c|]; [rewrite run_filter_steps|]; reflexivity.
Qed.

(** How the reader would resolve the top property if it treated it like a
    nested path segment: this is the reading of the specification that the
    code does not follow. *)
Definition spec_top_lookup (boundParent : value) (propertyName : string) : outcome value :=
  walk [propertyName] boundParent.

(** C1, as amended: for a binding with a defined top-level property name,
    [getValue] without a hint takes the top-level value from the direct
    property read [boundParent[propertyName]] alone: the read is what the
    path, the filters and the default make of that value, and it fails as
    the property read fails. When the parent has no such property the
    top-level value is [undefined], whatever [get] method the parent has;
    a binding without path and filters then reads as its default value.
    The [get] accessor is used for nested path segments only: a segment
    that is not a property of the value reached so far is resolved by
    calling that value's [get] method. *)
Theorem getValue_top_property_direct (self : Binding) (boundParent : value) (p : string)
    (rt : runtime) :
  propertyName self = Some p ->
  getValue self boundParent None rt
  = match Js.get boundParent p with
    | Normal top => resolve self top rt
    | Throw e => (Throw e, rt)
    end
  /\ (Js.has p boundParent = Normal false ->
      Js.get boundParent p = Normal VUndef
      /\ getValue self boundParent None rt = resolve self VUndef rt
      /\ (path self = None -> _filter self = None ->
          getValue self boundParent None rt = (Normal (defaultValue self), rt)))
  /\ (forall (q : string) (rest : list string) (r g : value) (f : func),
        Js.not_nullish r = true ->
        Js.has q r = Normal false ->
        Js.get r "get" = Normal g ->
        Js.callable g = Some f ->
        walk (q :: rest) r = Js.call_simple f r [VStr q] ≫= walk rest).
Proof.
  intros Hp.
  assert (Hread : getValue self boundParent None rt
                  = match Js.get boundParent p with
                    | Normal top => resolve self top rt
                    | Throw e => (Throw e, rt)
                    end).
  { rewrite getValue_resolve, Hp. unfold mbind at 1, M_bind at 1, lift at 1.
    destruct (Js.get boundParent p); reflexivity. }
  split; [exact Hread|]. split.
  - intros Hhas. pose proof (has_false_get p boundParent Hhas) as Hget.
    split; [exact Hget|]. rewrite Hread, Hget. split; [reflexivity|].
    intros Hpath Hfilter. unfold resolve, steps_of. rewrite Hpath, Hfilter.
    cbn. f_equal. f_equal.
    destruct (defaultValue self); reflexivity.
  - intros q rest r g f Hr Hhas Hg Hf. simpl.
    rewrite Hr, Hhas. simpl. rewrite Hg. simpl. rewrite Hf.
    destruct (Js.call_simple f r [VStr q]); reflexivity.
Qed.

End WithHost.

(** A parent without a property [a] whose [get] method maps [a] to 5, and
    the binding for source [a]. *)
Definition keyed_parent : value := VObj 1 [("get", VFun (FKeyed 2 [("a", VNum 5)]))].
Definition binding_a : Binding := mkBinding 16 (Some "a") None VUndef None.

Section OnBareHost.
#[local] Existing Instance bare_host.

(** C1, as stated, fails: the parent has no property [a] and has a [get]
    method, resolving [a] like a nested segment calls [get] and gives 5,
    and the reader returns [undefined]. *)
Lemma getValue_top_property_no_get_fallback :
  Js.has "a" keyed_parent = Normal false
  /\ (g ← Js.get keyed_parent "get"; mret (Js.typeof g)) = Normal "function"
  /\ spec_top_lookup keyed_parent "a" = Normal (VNum 5)
  /\ new_Binding (Some "a") VUndef initial_runtime = (Normal binding_a, mkRuntime [] 1 17)
  /\ fst (getValue binding_a keyed_parent None initial_runtime) = Normal VUndef.
Proof. repeat split; vm_compute; reflexivity. Qed.

(** The amended C1 on [binding_a] and [keyed_parent]: the parent has a
    [get] method and the read is [undefined]. *)
Lemma getValue_top_property_direct_witness :
  (g ← Js.get keyed_parent "get"; mret (Js.typeof g)) = Normal "function"
  /\ getValue binding_a keyed_parent None initial_runtime = (Normal VUndef, initial_runtime).
Proof.
  split; [reflexivity|].
  destruct (getValue_top_property_direct binding_a keyed_parent "a" initial_runtime eq_refl)
    as (_ & Hmissing & _).
  destruct (Hmissing eq_refl) as (_ & _ & Hdefault).
  exact (Hdefault eq_refl eq_refl).
Defined.

End OnBareHost.

(** ** The formatters *)

Lemma neg_zero_is_not_zero : neg_zero <> zero.
Proof.
  intros H. apply (f_equal Prim2SF) in H. vm_compute in H. discriminate H.
Qed.

Section Formatters.
Context {host : Host}.

(** C6: the int filter maps [undefined] to 0, -0.4 to 0 (the rounded value
    is negative zero, the result is positive zero) and 2.6 to 3. *)
Theorem intFormatter_examples (rt : runtime) :
  _intFormatter VUndef rt = (Normal (VNum 0), rt)
  /\ JsNumber.Math_round (-0.4) = neg_zero
  /\ _intFormatter (VNum (-0.4)) rt = (Normal (VNum zero), rt)
  /\ _intFormatter (VNum 2.6) rt = (Normal (VNum 3), rt).
Proof. repeat split; vm_compute; reflexivity. Qed.

(** The binding that [count|i|dec(2)] constructs. *)
Definition binding_count (uid : nat) : Binding :=
  mkBinding uid (Some "count") None VUndef
    (Some (Chain (Some (Chain None (StepFilter F_int None)))
                 (StepFilter F_decimal (Some "2")))).

Lemma new_Binding_count (rt : runtime) :
  new_Binding (Some "count|i|dec(2)") VUndef rt
  = (Normal (binding_count (nextBindingUID rt)),
     mkRuntime (unhandled rt) (nextObjectId rt) (S (nextBindingUID rt))).
Proof. vm_compute. reflexivity. Qed.

(** C4: the binding for [count|i|dec(2)], read on a parent whose [count]
    is 3.7, gives the string [4.00]: its chain is the int filter followed
    by the decimal filter with argument 2, the int filter gives 4 and the
    decimal filter turns 4 into [4.00]. In general the segments after the
    first pipe are chained in segment order, and a chain applies its links
    oldest first. *)
Theorem count_int_dec2_reads_4_00 (rt : runtime) (boundParent : value) :
  Js.get boundParent "count" = Normal (VNum 3.7) ->
  (b ← new_Binding (Some "count|i|dec(2)") VUndef; getValue b boundParent None) rt
  = (Normal (VStr "4.00"),
     mkRuntime (unhandled rt) (nextObjectId rt) (S (nextBindingUID rt)))
  /\ (b ← new_Binding (Some "count|i|dec(2)") VUndef; mret (propertyName b, path b, steps_of b)) rt
     = (Normal (Some "count", None, [StepFilter F_int None; StepFilter F_decimal (Some "2")]),
        mkRuntime (unhandled rt) (nextObjectId rt) (S (nextBindingUID rt)))
  /\ _intFormatter (VNum 3.7) rt = (Normal (VNum 4), rt)
  /\ _decimalFormatter (VNum 4) (VStr "2") rt = (Normal (VStr "4.00"), rt)
  /\ (forall (parts : list string) (this : Binding) (rt : runtime),
        match addFilters this parts rt with
        | (Normal this', rt') =>
            rt' = rt /\ exists l, all_selected parts = Some l
                                  /\ steps_of this' = (steps_of this ++ l)%list
        | (Throw _, _) => all_selected parts = None
        end)
  /\ (forall (c : chained) (v : value) (rt : runtime),
        run_filter c v rt = run_steps (steps c) v rt).
Proof.
  intros Hcount.
  split.
  { unfold mbind at 1, M_bind at 1. rewrite new_Binding_count.
    rewrite (getValue_hint_is_direct_read (binding_count (nextBindingUID rt)) boundParent
               "count" (VNum 3.7) eq_refl Hcount).
    vm_compute. reflexivity. }
  split; [vm_compute; reflexivity|].
  split; [vm_compute; reflexivity|].
  split; [vm_compute; reflexivity|].
  split.
  - intros parts this rt'. apply addFilters_in_order.
  - intros c v rt'. apply run_filter_steps.
Qed.

(** The name [addFilter] looks up selects no filter exactly when it is
    neither an entry of the registry nor a member inherited from
    [Object.prototype], and then the error is [UnknownFilter]. *)
Lemma addFilter_throws_iff (this : Binding) (fmt : string) (rt : runtime) :
  let name := fst (split_format fmt) in
  (exists e, fst (addFilter this fmt rt) = Throw e)
  <-> (own_filter name = None /\ Js.mem name Js.Object_members = false).
Proof.
  intros name. rewrite addFilter_selected. unfold selected, lookup_filter. fold name.
  destruct (own_filter name) as [f|].
  - split; [intros [e He]; discriminate He | intros [H _]; discriminate H].
  - destruct (Js.mem name Js.Object_members).
    + split; [intros [e He]; discriminate He | intros [_ H]; discriminate H].
    + split; [intros _; split; reflexivity | intros _; eexists; reflexivity].
Qed.

Lemma addFilter_throws_UnknownFilter (this : Binding) (fmt : string) (rt : runtime) (e : exn) :
  fst (addFilter this fmt rt) = Throw e ->
  e = err Binding_UnknownFilter (Some (fst (split_format fmt))).
Proof.
  rewrite addFilter_selected. destruct (selected fmt); simpl; intros H.
  - discriminate H.
  - injection H as <-. reflexivity.
Qed.

(** C9, at the input where the code leaves it: [toString] is not an entry
    of the filter registry, yet [addFilter] does not throw for it, because
    the registry object inherits [toString] from [Object.prototype]; the
    same holds for a source string with that pipe segment. *)
Theorem addFilter_toString_is_accepted (this : Binding) (rt : runtime) :
  own_filter "toString" = None
  /\ addFilter this "toString" rt
     = (Normal (set_filter this (Chain (_filter this)
                                       (StepFilter (F_inherited "toString") None))), rt)
  /\ new_Binding (Some "x|toString") VUndef rt
     = (Normal (mkBinding (nextBindingUID rt) (Some "x") None VUndef
                  (Some (Chain None (StepFilter (F_inherited "toString") None)))),
        mkRuntime (unhandled rt) (nextObjectId rt) (S (nextBindingUID rt))).
Proof. repeat split; vm_compute; reflexivity. Qed.

(** The elements of an array, formatted one by one. *)
Fixpoint format_all (l : list value) : M (list string) :=
  match l with
  | [] => mret []
  | e :: r => s ← _stringFormatter e; rest ← format_all r; mret (s :: rest)
  end.

(** An array is formatted element by element and joined. *)
Lemma stringFormatter_array (id : nat) (elems : list value) (rt : runtime) :
  _stringFormatter (VArr id elems) rt
  = (ss ← format_all elems; mret (JsString.join ", " ss)) rt.
Proof.
  change (_stringFormatter (VArr id elems) rt)
    with ((ss ← (fix each (l : list value) : M (list string) :=
                   match l with
                   | [] => mret []
                   | e :: r => s ← _stringFormatter e; rest ← each r; mret (s :: rest)
                   end) elems;
           mret (JsString.join ", " ss)) rt).
  unfold mbind, M_bind at 1 3.
  match goal with
  | |- match ?f elems rt with _ => _ end = _ =>
      assert (Heach : forall l r, f l r = format_all l r)
  end.
  { induction l as [|e l IH]; intros r; [reflexivity|].
    simpl. unfold mbind, M_bind.
    destruct (_stringFormatter e r) as [[s|x] r1]; [|reflexivity].
    rewrite IH. reflexivity. }
  rewrite Heach. reflexivity.
Qed.

(** A plain object, whose [toString] is the one of [Object.prototype], is
    reported to the sink and formatted as [???]. *)
Lemma stringFormatter_plain_object (id : nat) (props : list (string * value)) (rt : runtime) :
  Js.get (VObj id props) "toString" = Normal Object_prototype_toString ->
  _stringFormatter (VObj id props) rt
  = (Normal "???",
     mkRuntime (unhandled rt ++ [err Binding_ObjectType None])
               (nextObjectId rt) (nextBindingUID rt)).
Proof.
  intros Hget.
  change (_stringFormatter (VObj id props) rt)
    with ((ts ← lift (Js.get (VObj id props) "toString");
           if Js.strict_eq ts Object_prototype_toString then
             _ ← logUnhandledException (err Binding_ObjectType None); mret "???"
           else
             is_array ←
               (if Js.strict_eq ts Array_prototype_toString then
                  mp ← lift (Js.get (VObj id props) "map");
                  mret (Js.strict_eq mp Array_prototype_map)
                else mret false : M bool);
             if is_array : bool then
               mapped ← lift (native_call ArrayProto "map" (VObj id props) []);
               joined ← lift (native_call ArrayProto "join" mapped [VStr ", "]);
               as_string joined
             else
               r ← _formatNotUndefined (VObj id props) String_ (Some (VStr ""));
               as_string r) rt).
  rewrite Hget. reflexivity.
Qed.

(** C10, at the input where the code leaves it: for [null] the string
    filter throws a TypeError, because [typeof null] is ["object"] and the
    read of [d.toString] comes before the test for undefined; for
    [undefined] it returns the empty string, a plain object is logged and
    becomes [???], and an array is joined with a comma and a space. *)
Theorem stringFormatter_null_throws (rt : runtime) :
  _stringFormatter VNull rt = (Throw TypeError, rt)
  /\ _stringFormatter VUndef rt = (Normal "", rt)
  /\ (forall id props,
        Js.lookup_prop props "toString" = None ->
        _stringFormatter (VObj id props) rt
        = (Normal "???",
           mkRuntime (unhandled rt ++ [err Binding_ObjectType None])
                     (nextObjectId rt) (nextBindingUID rt)))
  /\ (forall id elems, _stringFormatter (VArr id elems) rt
                       = (ss ← format_all elems; mret (JsString.join ", " ss)) rt)
  /\ (forall id, _stringFormatter (VArr id [VNum 1; VNull]) rt = (Throw TypeError, rt)).
Proof.
  split; [vm_compute; reflexivity|].
  split; [vm_compute; reflexivity|].
  split.
  { intros id props Hown. apply stringFormatter_plain_object.
    unfold Js.get, Js.own_prop. rewrite Hown. reflexivity. }
  split; [intros id elems; apply stringFormatter_array|].
  intros id. vm_compute. reflexivity.
Qed.

End Formatters.

(** C4 on a parent with a second property. *)
Lemma count_int_dec2_reads_4_00_witness :
  fst ((b ← new_Binding (Some "count|i|dec(2)") VUndef;
        getValue (host := bare_host) b (VObj 1 [("title", VStr "n"); ("count", VNum 3.7)]) None)
         initial_runtime)
  = Normal (VStr "4.00").
Proof.
  rewrite (proj1 (count_int_dec2_reads_4_00 (host := bare_host) initial_runtime
                    (VObj 1 [("title", VStr "n"); ("count", VNum 3.7)]) eq_refl)).
  reflexivity.
Defined.

End BindingFacts.

(* ===================================================================== *)
(** * Properties of [Binding.Bound] *)
(* ===================================================================== *)

Module BoundFacts.
Import Errors Bound.

(** The hook calls that notifying the consumers [cs] makes, in order. *)
Fixpoint updates (id : nat) (v : value) (cs : list Component) : list event :=
  match cs with
  | [] => []
  | c :: rest =>
      match hook c id with
      | Some _ => Update (cid c) id v :: updates id v rest
      | None => updates id v rest
      end
  end.

(** What the consumers [cs] make the sink receive, in order: the error for
    a missing hook, or what a hook threw. *)
Fixpoint failures (id : nat) (v : value) (cs : list Component) : list exn :=
  match cs with
  | [] => []
  | c :: rest =>
      match hook c id with
      | None => err Binding_NoComponent None :: failures id v rest
      | Some f =>
          match f v with
          | Some e => e :: failures id v rest
          | None => failures id v rest
          end
      end
  end.

Definition is_update (e : event) : bool :=
  match e with
  | Update _ _ _ => true
  | Read _ _ => false
  end.

Definition with_unhandled (r : runtime) (l : list exn) : runtime :=
  mkRuntime (unhandled r ++ l) (nextObjectId r) (nextBindingUID r).

Lemma with_unhandled_nil (r : runtime) : with_unhandled r [] = r.
Proof. destruct r; unfold with_unhandled; simpl. rewrite app_nil_r. reflexivity. Qed.

(** Notifying a list of consumers changes neither the store nor the order
    of things: it appends the hook calls to the trace and the failures to
    the sink. *)
Lemma forEach_notify (id : nat) (v : value) (cs : list Component) (w : world) :
  forEach cs (notify id v) w
  = mkWorld (bounds w) (with_unhandled (rt w) (failures id v cs))
            (trace w ++ updates id v cs).
Proof.
  unfold forEach. revert w. induction cs as [|c cs IH]; intros w; simpl.
  - rewrite with_unhandled_nil, app_nil_r. destruct w; reflexivity.
  - rewrite IH. unfold notify, run_rt, logUnhandledException, log_event, with_unhandled.
    destruct (hook c id) as [f|]; simpl.
    + destruct (f v) as [e|]; simpl; rewrite <- !app_assoc; reflexivity.
    + rewrite <- !app_assoc. reflexivity.
Qed.

Lemma updates_all_updates (id : nat) (v : value) (cs : list Component) :
  forallb is_update (updates id v cs) = true.
Proof.
  induction cs as [|c cs IH]; simpl; [reflexivity|].
  destruct (hook c id); simpl; assumption.
Qed.

Lemma updates_complete (id : nat) (v : value) (cs : list Component) (c : Component) :
  In c cs -> hook c id <> None -> In (Update (cid c) id v) (updates id v cs).
Proof.
  induction cs as [|c0 cs IH]; simpl; [tauto|].
  intros [->|Hin] Hhook.
  - destruct (hook c id); [left; reflexivity | congruence].
  - destruct (hook c0 id); [right|]; apply IH; assumption.
Qed.

Section Propagation.
Context {P : Type}.
Variable reader : nat -> gmap nat Bound -> P -> option value -> M value.

(** One call on an instance without parent that has consumers, when the
    reader returns [v]. *)
Lemma updateComponents_root (fuel key : nat) (hint : option value) (p : P) (w : world)
    (this : Bound) (v : value) (r' : runtime) :
  bounds w !! key = Some this ->
  parent this = None ->
  components this <> [] ->
  reader key (bounds w) p hint (rt w) = (Normal v, r') ->
  updateComponents reader (S fuel) key hint p w
  = Some (Normal (),
          if negb (hasValue this) || negb (Js.strict_eq (_lastValue this) v) then
            mkWorld (<[key := set_cache this true v]> (bounds w))
                    (with_unhandled r' (failures (Binding.id (binding this)) v (components this)))
                    ((trace w ++ [Read key hint])
                       ++ updates (Binding.id (binding this)) v (components this))
          else mkWorld (bounds w) r' (trace w ++ [Read key hint])).
Proof.
  intros Hkey Hparent Hcs Hread. simpl. rewrite Hkey.
  assert (Hcount : (count this =? 0)%nat = false).
  { unfold count. destruct (components this); [congruence | reflexivity]. }
  rewrite Hcount. cbn [andb].
  unfold run_rt, log_event. cbn [rt bounds trace]. rewrite Hread.
  destruct (negb (hasValue this) || negb (Js.strict_eq (_lastValue this) v)); [|reflexivity].
  rewrite Hparent, forEach_notify. reflexivity.
Qed.

(** What a first call that returns leaves in the store for an instance
    without parent that has consumers: the same instance with a valid
    cache. *)
Lemma updateComponents_root_caches (fuel key : nat) (hint : option value) (p : P)
    (w w1 : world) (this : Bound) :
  bounds w !! key = Some this ->
  parent this = None ->
  components this <> [] ->
  updateComponents reader (S fuel) key hint p w = Some (Normal (), w1) ->
  exists last, bounds w1 !! key = Some (set_cache this true last).
Proof.
  intros Hkey Hparent Hcs Hcall.
  destruct (reader key (bounds w) p hint (rt w)) as [[v|e] r'] eqn:Hread.
  - rewrite (updateComponents_root fuel key hint p w this v r' Hkey Hparent Hcs Hread) in Hcall.
    injection Hcall as <-.
    destruct (hasValue this) eqn:Hhas; simpl.
    + destruct (Js.strict_eq (_lastValue this) v); simpl.
      * exists (_lastValue this). rewrite Hkey. f_equal.
        destruct this as [b pa pn cs [[|]|] lv]; simpl in *; try discriminate. reflexivity.
      * exists v. apply lookup_insert_eq.
    + exists v. apply lookup_insert_eq.
  - simpl in Hcall. rewrite Hkey in Hcall. unfold count in Hcall.
    destruct (components this) as [|c cs]; [congruence|]. simpl in Hcall.
    unfold run_rt, log_event in Hcall. simpl in Hcall. rewrite Hread in Hcall.
    discriminate Hcall.
Qed.

(** C2, as amended: after a call of [updateComponents] on an instance
    without parent that has consumers, a second call in which the reader
    returns a value strictly equal ([===]) to the cached one returns
    without calling any update hook: it adds the read to the trace and
    nothing else, and leaves the store as it was. *)
Theorem updateComponents_same_value_is_silent (fuel1 fuel2 key : nat)
    (hint1 hint2 : option value) (p1 p2 : P) (w w1 : world) (this : Bound)
    (v : value) (r' : runtime) :
  bounds w !! key = Some this ->
  parent this = None ->
  components this <> [] ->
  updateComponents reader (S fuel1) key hint1 p1 w = Some (Normal (), w1) ->
  reader key (bounds w1) p2 hint2 (rt w1) = (Normal v, r') ->
  (forall this1, bounds w1 !! key = Some this1 -> Js.strict_eq (_lastValue this1) v = true) ->
  updateComponents reader (S fuel2) key hint2 p2 w1
  = Some (Normal (), mkWorld (bounds w1) r' (trace w1 ++ [Read key hint2])).
Proof.
  intros Hkey Hparent Hcs Hfirst Hread Hsame.
  destruct (updateComponents_root_caches fuel1 key hint1 p1 w w1 this
              Hkey Hparent Hcs Hfirst) as [last Hkey1].
  rewrite (updateComponents_root fuel2 key hint2 p2 w1 (set_cache this true last) v r'
             Hkey1 Hparent Hcs Hread).
  rewrite (Hsame _ Hkey1). reflexivity.
Qed.

(** C3: on an instance without parent, when the value the reader returns
    is new, [updateComponents] returns normally whatever the hooks do;
    every consumer that has the hook is called with the new value, in list
    order, also after a consumer that failed; and the sink receives, in
    order, the error for each consumer without the hook and what each
    failing hook threw. *)
Theorem updateComponents_isolates_failures (fuel key : nat) (hint : option value) (p : P)
    (w : world) (this : Bound) (v : value) (r' : runtime) :
  bounds w !! key = Some this ->
  parent this = None ->
  components this <> [] ->
  reader key (bounds w) p hint (rt w) = (Normal v, r') ->
  hasValue this = false \/ Js.strict_eq (_lastValue this) v = false ->
  let id := Binding.id (binding this) in
  exists w',
    updateComponents reader (S fuel) key hint p w = Some (Normal (), w')
    /\ trace w' = (trace w ++ Read key hint :: updates id v (components this))%list
    /\ unhandled (rt w') = (unhandled r' ++ failures id v (components this))%list
    /\ (forall c, In c (components this) -> hook c id <> None ->
                  In (Update (cid c) id v) (trace w')).
Proof.
  intros Hkey Hparent Hcs Hread Hnew id.
  rewrite (updateComponents_root fuel key hint p w this v r' Hkey Hparent Hcs Hread).
  assert (Hcond : negb (hasValue this) || negb (Js.strict_eq (_lastValue this) v) = true).
  { destruct Hnew as [-> | ->]; [reflexivity | apply orb_true_r]. }
  rewrite Hcond. eexists. split; [reflexivity|]. simpl.
  split; [rewrite <- app_assoc; reflexivity|].
  split; [reflexivity|].
  intros c Hin Hhook. apply in_or_app. right.
  apply updates_complete; assumption.
Qed.

(** C5: on an instance with no consumers and no parent, [updateComponents]
    returns without reading from the reader and without calling a hook (the
    trace and the runtime are as before); afterwards [hasValue()] is false
    and the stored last value is the one from before; other instances are
    untouched. *)
Theorem updateComponents_detached_invalidates (fuel key : nat) (hint : option value) (p : P)
    (w : world) (this : Bound) :
  bounds w !! key = Some this ->
  components this = [] ->
  parent this = None ->
  exists w' this',
    updateComponents reader (S fuel) key hint p w = Some (Normal (), w')
    /\ trace w' = trace w
    /\ rt w' = rt w
    /\ bounds w' !! key = Some this'
    /\ hasValue this' = false
    /\ _lastValue this' = _lastValue this
    /\ (forall k, k <> key -> bounds w' !! k = bounds w !! k).
Proof.
  intros Hkey Hcs Hparent. simpl. rewrite Hkey. unfold count. rewrite Hcs, Hparent. simpl.
  eexists. exists (set_cache this false (_lastValue this)).
  split; [reflexivity|]. simpl.
  split; [reflexivity|]. split; [reflexivity|].
  split; [apply lookup_insert_eq|].
  split; [reflexivity|]. split; [reflexivity|].
  intros k Hk. apply lookup_insert_ne. congruence.
Qed.

End Propagation.

(** ** A run on concrete data *)

Section OnBareHost.
#[local] Existing Instance bare_host.

(** The binding for [x|n], a consumer whose hook returns, one whose hook
    throws and one without the hook. *)
Definition binding_x_n : Binding.Binding :=
  Binding.mkBinding 16 (Some "x") None VUndef
    (Some (Binding.Chain None (Binding.StepFilter Binding.F_float None))).

Definition quiet : Component :=
  mkComponent 7 (fun id => if (id =? 16)%nat then Some (fun _ => None) else None).
Definition faulty : Component :=
  mkComponent 8 (fun id => if (id =? 16)%nat then Some (fun _ => Some (JsError "boom")) else None).
Definition unhooked : Component := mkComponent 9 (fun _ => None).

(** The reader of a plain binding: the bound parent is the state. *)
Definition reader_x_n (_ : nat) (_ : gmap nat Bound) (boundParent : value)
  (hint : option value) : M value :=
  Binding.getValue binding_x_n boundParent hint.

Definition world_of (cs : list Component) : world :=
  mkWorld {[ 1%nat := mkBound binding_x_n None (Some "x") cs None VUndef ]}
          initial_runtime [].

(** A parent whose [x] is not a number, and one whose [x] is. *)
Definition parent_abc : value := VObj 1 [("x", VStr "abc")].
Definition parent_12 : value := VObj 1 [("x", VStr "12")].

Definition updates_of (r : option (outcome unit * world)) : option (list event) :=
  match r with
  | Some (Normal _, w) => Some (List.filter is_update (trace w))
  | _ => None
  end.

Definition twice (boundParent : value) (cs : list Component) : option (outcome unit * world) :=
  match updateComponents reader_x_n 1 1 None boundParent (world_of cs) with
  | Some (Normal _, w1) => updateComponents reader_x_n 1 1 None boundParent w1
  | r => r
  end.

(** C2, as stated, fails: the source value [abc] is the same in both
    calls, the filtered value is NaN both times, NaN is not [===] NaN, and
    the hook of the consumer is called in the second call as well. *)
Lemma updateComponents_unchanged_NaN_notifies_twice :
  updates_of (updateComponents reader_x_n 1 1 None parent_abc (world_of [quiet]))
  = Some [Update 7 16 (VNum nan)]
  /\ updates_of (twice parent_abc [quiet])
     = Some [Update 7 16 (VNum nan); Update 7 16 (VNum nan)].
Proof. split; vm_compute; reflexivity. Qed.

(** The amended C2 on a parent whose [x] stays [12]: one hook call in two
    calls of [updateComponents]. *)
Lemma updateComponents_same_value_is_silent_witness :
  updates_of (twice parent_12 [quiet]) = Some [Update 7 16 (VNum 12)].
Proof.
  unfold twice.
  destruct (updateComponents reader_x_n 1 1 None parent_12 (world_of [quiet]))
    as [[[[]|e] w1]|] eqn:Hfirst; try (vm_compute in Hfirst; discriminate Hfirst).
  assert (Hw1 : bounds w1 !! 1%nat
                = Some (mkBound binding_x_n None (Some "x") [quiet] (Some true) (VNum 12))
                /\ rt w1 = initial_runtime
                /\ trace w1 = [Read 1 None; Update 7 16 (VNum 12)]).
  { vm_compute in Hfirst. injection Hfirst as <-. repeat split. }
  destruct Hw1 as (Hb & Hr & Ht).
  rewrite (updateComponents_same_value_is_silent reader_x_n 0 0 1 None None
             parent_12 parent_12 (world_of [quiet]) w1
             (mkBound binding_x_n None (Some "x") [quiet] None VUndef)
             (VNum 12) initial_runtime).
  - simpl. rewrite Ht. reflexivity.
  - reflexivity.
  - reflexivity.
  - discriminate.
  - exact Hfirst.
  - rewrite Hr. vm_compute. reflexivity.
  - intros this1 Hthis1. rewrite Hb in Hthis1. injection Hthis1 as <-. vm_compute. reflexivity.
Defined.

(** C3 on a failing consumer, a consumer without the hook and a quiet one. *)
Lemma updateComponents_isolates_failures_witness :
  exists w',
    updateComponents reader_x_n 1 1 None parent_12 (world_of [faulty; unhooked; quiet])
    = Some (Normal (), w')
    /\ trace w' = [Read 1 None; Update 8 16 (VNum 12); Update 7 16 (VNum 12)]
    /\ unhandled (rt w') = [JsError "boom"; JsError "[Binding] Component not bound"].
Proof.
  destruct (updateComponents_isolates_failures reader_x_n 0 1 None parent_12
              (world_of [faulty; unhooked; quiet])
              (mkBound binding_x_n None (Some "x") [faulty; unhooked; quiet] None VUndef)
              (VNum 12) initial_runtime)
    as (w' & Hcall & Htrace & Hsink & _).
  - reflexivity.
  - reflexivity.
  - discriminate.
  - vm_compute. reflexivity.
  - left. reflexivity.
  - exists w'. split; [exact Hcall|]. split; [exact Htrace | exact Hsink].
Defined.

(** C5 on an instance without consumers. *)
Lemma updateComponents_detached_invalidates_witness :
  exists w' this',
    updateComponents reader_x_n 1 1 None parent_12 (world_of []) = Some (Normal (), w')
    /\ trace w' = []
    /\ bounds w' !! 1%nat = Some this'
    /\ hasValue this' = false
    /\ _lastValue this' = VUndef.
Proof.
  destruct (updateComponents_detached_invalidates reader_x_n 0 1 None parent_12
              (world_of [])
              (mkBound binding_x_n None (Some "x") [] None VUndef))
    as (w' & this' & Hcall & Htrace & _ & Hkey & Hhas & Hlast & _).
  - reflexivity.
  - reflexivity.
  - reflexivity.
  - exists w', this'. repeat split; assumption.
Defined.

End OnBareHost.

End BoundFacts.

(* ===================================================================== *)
(** * Properties of the service registry *)
(* ===================================================================== *)

Module ServiceFacts.
Import Service.

Section WithReferences.
Context {references : References}.

Lemma register_nonblank (this : ManagedService) (c : ServiceContainer) :
  JsString.toUpperCase (name this) <> "" ->
  register this c
  = Normal (match services c !! JsString.toUpperCase (name this) with
            | Some ref =>
                mkContainer (<[JsString.toUpperCase (name this) := fst (set_target ref this)]>
                               (services c))
                            (match snd (set_target ref this) with
                             | Some o => destroyed c ++ [o]
                             | None => destroyed c
                             end)
            | None =>
                mkContainer (<[JsString.toUpperCase (name this) := new_reference (Some this)]>
                               (services c))
                            (destroyed c)
            end).
Proof.
  intros Hname. unfold register.
  destruct (String.eqb_spec (JsString.toUpperCase (name this)) "") as [Heq|_]; [contradiction|].
  destruct (services c !! JsString.toUpperCase (name this)); reflexivity.
Qed.

Lemma register_blank (this : ManagedService) (c : ServiceContainer) :
  JsString.toUpperCase (name this) = "" -> register this c = Throw blank_name.
Proof. intros Hname. unfold register. rewrite Hname. reflexivity. Qed.

(** After a registration the slot for the name holds the service. *)
Lemma register_slot (this : ManagedService) (c c' : ServiceContainer) :
  register this c = Normal c' ->
  exists ref, services c' !! JsString.toUpperCase (name this) = Some ref
              /\ target ref = Some this.
Proof.
  unfold register.
  destruct (String.eqb _ ""); [discriminate|].
  destruct (services c !! JsString.toUpperCase (name this)) as [ref|];
    intros H; injection H as <-; simpl; eexists; (split; [apply lookup_insert_eq | reflexivity]).
Qed.

(** C7: for two services whose names are equal up to case, either the
    name is blank and [register] throws, or registering the first and then
    the second succeeds, and then: [find] returns the second for every
    casing of the name; the second registration keeps the slot of the first
    and replaces its target (the map has the same keys and the slot is the
    same reference with the second service as its target); and if the name
    had no slot, the first registration put a new restricted reference to
    the service under the upper-cased name and changed no other key. *)
Theorem register_twice_replaces_target (s1 s2 : ManagedService) (c : ServiceContainer) :
  JsString.toUpperCase (name s1) = JsString.toUpperCase (name s2) ->
  let uc := JsString.toUpperCase (name s1) in
  (uc = "" /\ register s1 c = Throw blank_name)
  \/ (uc <> "" /\
      exists c1 c2 ref1,
        register s1 c = Normal c1
        /\ register s2 c1 = Normal c2
        /\ (forall n, JsString.toUpperCase n = uc -> find n c2 = Some s2)
        /\ services c1 !! uc = Some ref1
        /\ target ref1 = Some s1
        /\ services c2
           = <[uc := mkReference (Some s2) (restricted ref1) (propagating ref1)
                                 (exclusive ref1)]> (services c1)
        /\ dom (services c2) = dom (services c1)
        /\ (services c !! uc = None ->
            services c1 = <[uc := new_reference (Some s1)]> (services c)
            /\ restricted (new_reference (Some s1)) = true
            /\ dom (services c1) = {[ uc ]} ∪ dom (services c))).
Proof.
  intros Hsame uc.
  destruct (String.eqb_spec uc "") as [Hblank|Hname].
  { left. split; [exact Hblank | apply register_blank; exact Hblank]. }
  right. split; [exact Hname|].
  assert (Hname2 : JsString.toUpperCase (name s2) <> "") by (rewrite <- Hsame; exact Hname).
  destruct (register s1 c) as [c1|e] eqn:Hreg1;
    [|rewrite register_nonblank in Hreg1 by exact Hname; discriminate Hreg1].
  destruct (register_slot s1 c c1 Hreg1) as (ref1 & Href1 & Htarget1). fold uc in Href1.
  pose proof (register_nonblank s2 c1 Hname2) as Hreg2.
  rewrite <- Hsame in Hreg2. fold uc in Hreg2. rewrite Href1 in Hreg2.
  eexists c1, _, ref1.
  split; [reflexivity|]. split; [exact Hreg2|].
  split.
  { intros n Hn. unfold find. rewrite Hn. simpl. rewrite lookup_insert_eq. reflexivity. }
  split; [exact Href1|]. split; [exact Htarget1|]. split; [reflexivity|].
  split.
  { simpl. apply dom_insert_lookup_L. rewrite Href1. eexists; reflexivity. }
  intros Hnone.
  rewrite register_nonblank in Hreg1 by exact Hname. fold uc in Hreg1.
  rewrite Hnone in Hreg1. injection Hreg1 as <-. simpl.
  split; [reflexivity|]. split; [reflexivity|].
  apply dom_insert_L.
Qed.

End WithReferences.

Definition service_x : ManagedService := mkService 1 "App.Mail".
Definition service_y : ManagedService := mkService 2 "app.MAIL".

(** References that do not own their targets. *)
Definition shared_references : References := {| owns_exclusively := false |}.

Section OnSharedReferences.
#[local] Existing Instance shared_references.

(** C7 on two services named [App.Mail] and [app.MAIL]. *)
Lemma register_twice_replaces_target_witness :
  exists c2,
    (c1 ← register service_x empty_container; register service_y c1) = Normal c2
    /\ find "APP.mail" c2 = Some service_y
    /\ dom (services c2) = {[ "APP.MAIL" ]}.
Proof.
  destruct (register_twice_replaces_target service_x service_y empty_container)
    as [[Hblank _] | (_ & c1 & c2 & ref1 & H1 & H2 & Hfind & _ & _ & _ & Hdom & Hnew)].
  - vm_compute. reflexivity.
  - vm_compute in Hblank. discriminate Hblank.
  - exists c2. split; [rewrite H1; exact H2|].
    split; [apply Hfind; vm_compute; reflexivity|].
    destruct (Hnew eq_refl) as (_ & _ & Hdom1).
    rewrite Hdom, Hdom1. cbn [empty_container services].
    rewrite dom_empty_L, (right_id_L ∅ (∪)). reflexivity.
Defined.

End OnSharedReferences.

End ServiceFacts.

(* ===================================================================== *)
(** * Properties of [UIModalController] *)
(* ===================================================================== *)

Module ModalFacts.
Import UIModalController.

Section WithRenderContext.
Context {RC : Type}.
Variable next : RC -> option Output -> RC.






End WithRenderContext.

(** A render context whose callbacks are numbered, and a controller that
    shows its modal component inside an application. *)
Definition count_calls (rc : nat) (_ : option Output) : nat := S rc.

Definition inside : Surroundings (RC := nat) := mkSurroundings (Some 3%nat) (Some 0%nat).



End ModalFacts.

(* ===================================================================== *)
(** * Further properties: strings *)
(* ===================================================================== *)

Module StringFacts.
Import JsString.

(** [c] occurs in [s]. *)
Fixpoint occurs (c : ascii) (s : string) : bool :=
  match s with
  | EmptyString => false
  | String d r => Ascii.eqb d c || occurs c r
  end.

Lemma occurs_app (c : ascii) (a b : string) :
  occurs c (a +:+ b) = occurs c a || occurs c b.
Proof.
  induction a as [|d a IH]; simpl; [reflexivity|].
  rewrite IH. apply orb_assoc.
Qed.

Lemma append_assoc (a b c : string) : (a +:+ b) +:+ c = a +:+ (b +:+ c).
Proof.
  induction a as [|d a IH]; [reflexivity|].
  change (String d ((a +:+ b) +:+ c) = String d (a +:+ (b +:+ c))). f_equal. exact IH.
Qed.

Lemma split_nonempty (sep : ascii) (s : string) :
  exists x xs, split sep s = x :: xs.
Proof.
  induction s as [|c r IH]; simpl.
  - eexists _, _. reflexivity.
  - destruct (Ascii.eqb c sep); [eexists _, _; reflexivity|].
    destruct IH as (x & xs & ->). eexists _, _. reflexivity.
Qed.

(** A string without the separator is its own only part. *)
Lemma split_absent (sep : ascii) (s : string) :
  occurs sep s = false -> split sep s = [s].
Proof.
  induction s as [|c r IH]; simpl; [reflexivity|].
  intros H. apply orb_false_elim in H as [Hc Hr].
  rewrite Hc, (IH Hr). reflexivity.
Qed.

Lemma split_app_sep (sep : ascii) (a b : string) :
  occurs sep a = false ->
  split sep (a +:+ String sep b) = a :: split sep b.
Proof.
  induction a as [|c a IH]; simpl.
  - intros _. rewrite Ascii.eqb_refl. reflexivity.
  - intros H. apply orb_false_elim in H as [Hc Ha].
    rewrite Hc, (IH Ha). reflexivity.
Qed.

(** No part of a split contains the separator. *)
Lemma split_parts (sep : ascii) (s : string) :
  Forall (fun part => occurs sep part = false) (split sep s).
Proof.
  induction s as [|c r IH]; simpl.
  - constructor; [reflexivity | constructor].
  - destruct (Ascii.eqb c sep) eqn:Hc.
    + constructor; [reflexivity | exact IH].
    + destruct (split sep r) as [|x xs]; [repeat constructor; simpl; rewrite Hc; reflexivity|].
      inversion IH as [|? ? Hx Hxs]; subst.
      constructor; [simpl; rewrite Hc, Hx; reflexivity | exact Hxs].
Qed.

(** Splitting and joining with the same separator gives the string back. *)
Lemma join_split (sep : ascii) (s : string) :
  join (String sep EmptyString) (split sep s) = s.
Proof.
  induction s as [|c r IH]; simpl; [reflexivity|].
  destruct (Ascii.eqb_spec c sep) as [->|Hc].
  - destruct (split_nonempty sep r) as (x & xs & Hsplit).
    rewrite Hsplit in *. simpl. simpl in IH. rewrite IH. reflexivity.
  - destruct (split sep r) as [|x xs] eqn:Hs.
    { destruct (split_nonempty sep r) as (x & xs & H). congruence. }
    destruct xs as [|y ys]; simpl in *; rewrite <- IH; reflexivity.
Qed.

Lemma occurs_split_tail (c sep : ascii) (s : string) :
  occurs c s = false -> Forall (fun part => occurs c part = false) (split sep s).
Proof.
  induction s as [|d r IH]; simpl.
  - intros _. repeat constructor.
  - intros H. apply orb_false_elim in H as [Hd Hr]. specialize (IH Hr).
    destruct (Ascii.eqb d sep).
    + constructor; [reflexivity | exact IH].
    + destruct (split sep r) as [|x xs]; [repeat constructor; simpl; rewrite Hd; reflexivity|].
      inversion IH as [|? ? Hx Hxs]; subst.
      constructor; [simpl; rewrite Hd, Hx; reflexivity | exact Hxs].
Qed.

(** ** Trimming *)

Definition starts_clean (s : string) : bool :=
  match s with
  | EmptyString => true
  | String c _ => negb (is_space c)
  end.

Lemma trimStart_clean (s : string) : starts_clean (trimStart s) = true.
Proof.
  induction s as [|c r IH]; simpl; [reflexivity|].
  destruct (is_space c) eqn:Hc; [exact IH | simpl; rewrite Hc; reflexivity].
Qed.

Lemma trimStart_of_clean (s : string) : starts_clean s = true -> trimStart s = s.
Proof.
  destruct s as [|c r]; simpl; [reflexivity|].
  destruct (is_space c); [discriminate | reflexivity].
Qed.

Lemma trimEnd_clean (s : string) : starts_clean s = true -> starts_clean (trimEnd s) = true.
Proof.
  destruct s as [|c r]; simpl; [reflexivity|].
  intros Hc. destruct (trimEnd r); simpl.
  - destruct (is_space c) eqn:E; [discriminate Hc | simpl; rewrite E; reflexivity].
  - exact Hc.
Qed.

Lemma trimEnd_idempotent (s : string) : trimEnd (trimEnd s) = trimEnd s.
Proof.
  induction s as [|c r IH]; simpl; [reflexivity|].
  destruct (trimEnd r) as [|d r'] eqn:Hr.
  - destruct (is_space c) eqn:Hc; simpl; [reflexivity | rewrite Hc; reflexivity].
  - change (trimEnd (String c (String d r'))) with
      (match trimEnd (String d r') with
       | EmptyString => if is_space c then EmptyString else String c EmptyString
       | t => String c t
       end).
    rewrite IH. reflexivity.
Qed.

(** Trimming twice is trimming once. *)
Lemma trim_idempotent (s : string) : trim (trim s) = trim s.
Proof.
  unfold trim.
  rewrite (trimStart_of_clean (trimEnd (trimStart s))).
  - apply trimEnd_idempotent.
  - apply trimEnd_clean, trimStart_clean.
Qed.

(** A string that ends in a character that is not white space keeps its
    end. *)
Lemma trimEnd_keeps (s : string) (c : ascii) :
  is_space c = false ->
  trimEnd (s +:+ String c EmptyString) = s +:+ String c EmptyString.
Proof.
  intros Hc. induction s as [|d r IH]; simpl.
  - rewrite Hc. reflexivity.
  - rewrite IH. destruct r; reflexivity.
Qed.

(** ** Indices and slices *)

Lemma length_append (a b : string) :
  String.length (a +:+ b) = (String.length a + String.length b)%nat.
Proof. induction a as [|c a IH]; simpl; [reflexivity | rewrite IH; reflexivity]. Qed.

Lemma substring_prefix (k r : string) : String.substring 0 (String.length k) (k +:+ r) = k.
Proof.
  induction k as [|c k IH]; simpl.
  - destruct r; reflexivity.
  - rewrite IH. reflexivity.
Qed.

Lemma substring_skip (k r : string) (n : nat) :
  String.substring (String.length k) n (k +:+ r) = String.substring 0 n r.
Proof. induction k as [|c k IH]; simpl; [reflexivity | exact IH]. Qed.

Lemma indexOf_from_first (c : ascii) (k r : string) (i : Z) :
  occurs c k = false ->
  indexOf_from c (k +:+ String c r) i = i + len k.
Proof.
  revert i. induction k as [|d k IH]; intros i; simpl.
  - intros _. rewrite Ascii.eqb_refl. unfold len. simpl. lia.
  - intros H. apply orb_false_elim in H as [Hd Hk].
    rewrite Ascii.eqb_sym, Hd, (IH _ Hk). unfold len. simpl String.length. lia.
Qed.

Lemma rel_last (n : Z) : 0 < n -> rel n (-1) = n - 1.
Proof. intros Hn. unfold rel. change (-1 <? 0) with true. cbv iota. lia. Qed.

Lemma rel_inside (n k : Z) : 0 <= k <= n -> rel n k = k.
Proof.
  intros Hk. unfold rel. destruct (k <? 0) eqn:Hneg; [apply Z.ltb_lt in Hneg; lia | lia].
Qed.

(** The pieces of a string of the form [k(a)]. *)
Lemma slices_of_call (k a : string) :
  k <> "" ->
  occurs "(" k = false ->
  let fmt := k +:+ String "(" (a +:+ ")") in
  indexOf fmt "(" = len k
  /\ 0 < len k
  /\ slice fmt (-1) None = ")"
  /\ slice fmt 0 (Some (len k)) = k
  /\ slice fmt (len k + 1) (Some (-1)) = a.
Proof.
  intros Hk Hparen fmt.
  assert (Hlen : len fmt = len k + len a + 2).
  { unfold fmt, len. rewrite length_append. simpl String.length. rewrite length_append.
    simpl String.length. lia. }
  assert (Hpos : 0 < len k).
  { unfold len. destruct k; [contradiction | simpl; lia]. }
  assert (Hnonneg : 0 <= len a) by (unfold len; lia).
  split; [apply (indexOf_from_first "(" k (a +:+ ")") 0 Hparen)|].
  split; [exact Hpos|].
  split.
  { unfold slice. rewrite Hlen, rel_last by lia.
    replace (Z.to_nat (len k + len a + 2 - 1))
      with (String.length (k +:+ String "(" a)).
    2:{ rewrite length_append. simpl String.length. unfold len. lia. }
    replace (Z.to_nat (Z.max (len k + len a + 2 - (len k + len a + 2 - 1)) 0))
      with 1%nat by lia.
    replace fmt with ((k +:+ String "(" a) +:+ ")").
    2:{ unfold fmt. rewrite append_assoc. reflexivity. }
    rewrite substring_skip. reflexivity. }
  split.
  { unfold slice. rewrite Hlen, !rel_inside by lia.
    replace (Z.to_nat 0) with 0%nat by lia.
    replace (Z.to_nat (Z.max (len k - 0) 0)) with (String.length k) by (unfold len; lia).
    apply substring_prefix. }
  unfold slice. rewrite Hlen, rel_last, rel_inside by lia.
  replace (Z.to_nat (len k + 1)) with (String.length (k +:+ "(")).
  2:{ rewrite length_append. simpl String.length. unfold len. lia. }
  replace (Z.to_nat (Z.max (len k + len a + 2 - 1 - (len k + 1)) 0))
    with (String.length a) by (unfold len; lia).
  replace fmt with ((k +:+ "(") +:+ (a +:+ ")")).
  2:{ unfold fmt. rewrite append_assoc. reflexivity. }
  rewrite substring_skip. apply substring_prefix.
Qed.

(** ** Upper case *)

Lemma upper_ascii_idempotent (c : ascii) : upper_ascii (upper_ascii c) = upper_ascii c.
Proof.
  destruct c as [[] [] [] [] [] [] [] []]; vm_compute; reflexivity.
Qed.

Lemma toUpperCase_idempotent (s : string) : toUpperCase (toUpperCase s) = toUpperCase s.
Proof.
  induction s as [|c r IH]; simpl; [reflexivity|].
  rewrite upper_ascii_idempotent, IH. reflexivity.
Qed.

Lemma toUpperCase_blank (s : string) : toUpperCase s = "" -> s = "".
Proof. destruct s; [reflexivity | discriminate]. Qed.

End StringFacts.

(* ===================================================================== *)
(** * Further properties: the constructor of [Binding] and [addFilter] *)
(* ===================================================================== *)

Module ParseFacts.
Import Errors Binding BindingFacts StringFacts.

(** The binding with one more [!] filter. *)
Definition add_not (this : Binding) : Binding :=
  set_filter this (Chain (_filter this) (StepFilter F_not None)).

(** The number of [!] characters a name starts with, and what follows
    them. *)
Fixpoint bangs (s : string) : nat :=
  match s with
  | String c r => if Ascii.eqb c "!" then S (bangs r) else O
  | EmptyString => O
  end.

Fixpoint after_bangs (s : string) : string :=
  match s with
  | String c r => if Ascii.eqb c "!" then after_bangs r else s
  | EmptyString => EmptyString
  end.

Definition with_uid (rt : runtime) : runtime :=
  mkRuntime (unhandled rt) (nextObjectId rt) (S (nextBindingUID rt)).

Lemma addFilter_bang (this : Binding) (rt : runtime) :
  addFilter this "!" rt = (Normal (add_not this), rt).
Proof. rewrite addFilter_selected. reflexivity. Qed.

Lemma strip_bangs_other (this : Binding) (c : ascii) (r : string) (rt : runtime) :
  Ascii.eqb c "!" = false ->
  strip_bangs this (String c r) rt = (Normal (this, String c r), rt).
Proof.
  destruct c as [[] [] [] [] [] [] [] []]; intros H; try reflexivity; discriminate H.
Qed.

(** The loop over the leading [!] characters adds one [!] filter for each
    and cannot fail. *)
Lemma strip_bangs_spec (s : string) (this : Binding) (rt : runtime) :
  strip_bangs this s rt = (Normal (Nat.iter (bangs s) add_not this, after_bangs s), rt).
Proof.
  revert this. induction s as [|c r IH]; intros this; [reflexivity|].
  destruct (Ascii.eqb c "!") eqn:Hc.
  - apply Ascii.eqb_eq in Hc. subst c.
    change (strip_bangs this (String "!" r) rt)
      with ((this' ← addFilter this "!"; strip_bangs this' r) rt).
    unfold mbind, M_bind. rewrite addFilter_bang, IH.
    change (bangs (String "!" r)) with (S (bangs r)).
    change (after_bangs (String "!" r)) with (after_bangs r).
    rewrite Nat.iter_succ_r. reflexivity.
  - rewrite (strip_bangs_other this c r rt Hc). simpl. rewrite Hc. reflexivity.
Qed.

Lemma after_bangs_clean (s : string) : JsString.head (after_bangs s) <> Some "!"%char.
Proof.
  induction s as [|c r IH]; simpl; [discriminate|].
  destruct (Ascii.eqb c "!") eqn:Hc; [exact IH|].
  simpl. intros H. injection H as ->. discriminate Hc.
Qed.

Lemma after_bangs_occurs (c : ascii) (s : string) :
  occurs c s = false -> occurs c (after_bangs s) = false.
Proof.
  induction s as [|d r IH]; simpl; [reflexivity|].
  intros H. destruct (Ascii.eqb d "!"); [|exact H].
  apply orb_false_elim in H as [_ Hr]. exact (IH Hr).
Qed.

(** The name a first segment starts with is its [!] characters followed by
    what is left of it. *)
Lemma bangs_after_bangs (s : string) :
  string_of_list_ascii (List.repeat "!"%char (bangs s)) +:+ after_bangs s = s.
Proof.
  induction s as [|c r IH]; simpl; [reflexivity|].
  destruct (Ascii.eqb_spec c "!") as [->|Hc]; simpl; [|reflexivity].
  change (String "!" (string_of_list_ascii (List.repeat "!"%char (bangs r)) +:+ after_bangs r)
          = String "!" r).
  f_equal. exact IH.
Qed.

(** Adding filters keeps the binding's own fields and the runtime, and can
    only fail with [UnknownFilter]. *)
Lemma addFilters_frame (parts : list string) (this : Binding) (rt : runtime) :
  match addFilters this parts rt with
  | (Normal this', rt') =>
      rt' = rt /\ id this' = id this /\ propertyName this' = propertyName this
      /\ path this' = path this /\ defaultValue this' = defaultValue this
  | (Throw e, rt') =>
      rt' = rt /\ exists part, In part parts
                               /\ e = err Binding_UnknownFilter (Some (fst (split_format part)))
  end.
Proof.
  revert this. induction parts as [|part rest IH]; intros this; simpl.
  - repeat split.
  - unfold mbind, M_bind. rewrite addFilter_selected.
    destruct (selected part) as [s|].
    + specialize (IH (set_filter this (Chain (_filter this) s))).
      destruct (addFilters _ rest rt) as [[this'|e] rt'].
      * exact IH.
      * destruct IH as [-> (p & Hin & ->)]. split; [reflexivity|].
        exists p. split; [right; exact Hin | reflexivity].
    + split; [reflexivity|]. exists part. split; [left; reflexivity | reflexivity].
Qed.

(** The first pipe segment of a source and the segments after it; the name
    part and the path part of a first segment. *)
Definition first_segment (source : string) : string :=
  List.hd EmptyString (JsString.split "|" source).
Definition filter_segments (source : string) : list string :=
  List.tl (JsString.split "|" source).
Definition name_segment (source : string) : string :=
  List.hd EmptyString (JsString.split "." (first_segment source)).
Definition path_segments (source : string) : list string :=
  List.tl (JsString.split "." (first_segment source)).

(** The constructor, in one piece: it draws an identifier, turns the
    leading [!] characters into filters, adds the filters of the segments,
    and keeps what is left of the name and the path. *)
Lemma new_Binding_spec (source : string) (d : value) (rt : runtime) :
  new_Binding (Some source) d rt
  = match addFilters (Nat.iter (bangs (name_segment source)) add_not
                        (mkBinding (nextBindingUID rt) None None d None))
                     (filter_segments source) (with_uid rt) with
    | (Normal this, rt') =>
        (Normal (mkBinding (nextBindingUID rt) (Some (after_bangs (name_segment source)))
                   (match path_segments source with [] => None | l => Some l end)
                   d (_filter this)), rt')
    | (Throw e, rt') => (Throw e, rt')
    end.
Proof.
  unfold new_Binding, name_segment, path_segments, first_segment, filter_segments.
  unfold mbind at 1, M_bind at 1. unfold freshBindingUID. fold (with_uid rt).
  destruct (split_nonempty "|" source) as (first & parts & ->). simpl.
  destruct (split_nonempty "." first) as (name & segs & ->). simpl.
  unfold mbind, M_bind. rewrite strip_bangs_spec.
  pose proof (addFilters_frame parts
                (Nat.iter (bangs name) add_not (mkBinding (nextBindingUID rt) None None d None))
                (with_uid rt)) as Hframe.
  destruct (addFilters _ parts (with_uid rt)) as [[this|e] rt']; [|reflexivity].
  destruct Hframe as (_ & Hid & _).
  assert (Hiter : forall k, id (Nat.iter k add_not
                                  (mkBinding (nextBindingUID rt) None None d None))
                            = nextBindingUID rt).
  { induction k as [|k IHk]; [reflexivity | exact IHk]. }
  rewrite Hid, Hiter. unfold mret, M_ret. destruct segs; reflexivity.
Qed.

Lemma steps_of_add_not (k : nat) (this : Binding) :
  steps_of (Nat.iter k add_not this)
  = (steps_of this ++ List.repeat (StepFilter F_not None) k)%list.
Proof.
  induction k as [|k IH]; simpl.
  - symmetry. apply app_nil_r.
  - unfold add_not at 1. rewrite steps_of_set_filter, IH, <- app_assoc.
    f_equal. symmetry. apply repeat_cons.
Qed.

(** X1: a [!] in front of a source without filter segments is the same as
    a [!] filter segment behind it: [new Binding("!" + s)] and
    [new Binding(s + "|!")] construct the same binding. *)
Theorem bang_prefix_is_not_segment (s : string) (d : value) (rt : runtime) :
  occurs "|" s = false ->
  new_Binding (Some (String "!" s)) d rt = new_Binding (Some (s +:+ "|!")) d rt.
Proof.
  intros Hs. rewrite !new_Binding_spec.
  unfold name_segment, path_segments, first_segment, filter_segments.
  rewrite (split_absent "|" (String "!" s)) by (simpl; exact Hs).
  change (s +:+ "|!") with (s +:+ String "|" "!").
  rewrite (split_app_sep "|" s "!" Hs).
  destruct (split_nonempty "." s) as (name & segs & Hsplit).
  assert (Hbang : JsString.split "." (String "!" s) = String "!" name :: segs).
  { simpl. rewrite Hsplit. reflexivity. }
  cbn [List.hd List.tl]. rewrite Hbang, Hsplit. cbn [List.hd List.tl].
  change (JsString.split "|" "!") with ["!"].
  change (bangs (String "!" name)) with (S (bangs name)).
  change (after_bangs (String "!" name)) with (after_bangs name).
  cbn [addFilters]. unfold mbind, M_bind. rewrite addFilter_bang. reflexivity.
Qed.

(** X1 on the source [a.b]. *)
Lemma bang_prefix_is_not_segment_witness :
  new_Binding (Some "!a.b") VUndef initial_runtime
  = new_Binding (Some "a.b|!") VUndef initial_runtime.
Proof. apply (bang_prefix_is_not_segment "a.b" VUndef initial_runtime). reflexivity. Defined.

Definition path_list (b : Binding) : list string :=
  match path b with
  | Some l => l
  | None => []
  end.

Definition steps_of_outcome (o : outcome Binding) : option (list step) :=
  match o with
  | Normal b => Some (steps_of b)
  | Throw _ => None
  end.

Definition bang_string (k : nat) : string := string_of_list_ascii (List.repeat "!"%char k).

(** X2: when the constructor returns, the property name is defined, does
    not start with [!] and contains neither [.] nor [|]; the path is
    undefined or a non-empty list of segments without [.] and [|]; the
    chain is one [!] filter for each leading [!] followed by the filters
    of the segments in order; and the source can be put together again
    from these parts. *)
Theorem constructed_binding_unparses (source : string) (d : value) (rt : runtime) :
  match new_Binding (Some source) d rt with
  | (Normal b, _) =>
      exists name k l,
        propertyName b = Some name
        /\ JsString.head name <> Some "!"%char
        /\ occurs "." name = false /\ occurs "|" name = false
        /\ path b <> Some []
        /\ Forall (fun seg => occurs "." seg = false /\ occurs "|" seg = false) (path_list b)
        /\ all_selected (filter_segments source) = Some l
        /\ steps_of b = (List.repeat (StepFilter F_not None) k ++ l)%list
        /\ JsString.join "|"
             ((bang_string k +:+ JsString.join "." (name :: path_list b))
                :: filter_segments source)
           = source
  | (Throw _, _) => all_selected (filter_segments source) = None
  end.
Proof.
  rewrite new_Binding_spec.
  set (this0 := Nat.iter (bangs (name_segment source)) add_not
                  (mkBinding (nextBindingUID rt) None None d None)).
  pose proof (addFilters_in_order (filter_segments source) this0 (with_uid rt)) as Horder.
  destruct (addFilters this0 (filter_segments source) (with_uid rt)) as [[this|e] rt'];
    [|exact Horder].
  destruct Horder as (_ & l & Hl & Hsteps).
  assert (Hfirst : Forall (fun part => occurs "|" part = false) (JsString.split "|" source))
    by apply split_parts.
  assert (Hjoin1 : JsString.join "|" (first_segment source :: filter_segments source) = source).
  { unfold first_segment, filter_segments.
    pose proof (join_split "|" source) as Hj.
    destruct (split_nonempty "|" source) as (x & xs & E). rewrite E in *. exact Hj. }
  assert (Hbar : occurs "|" (first_segment source) = false).
  { unfold first_segment. destruct (JsString.split "|" source); [reflexivity|].
    inversion Hfirst; assumption. }
  assert (Hdots : Forall (fun part => occurs "." part = false)
                    (JsString.split "." (first_segment source))) by apply split_parts.
  assert (Hbars : Forall (fun part => occurs "|" part = false)
                    (JsString.split "." (first_segment source)))
    by (apply occurs_split_tail; exact Hbar).
  assert (Hjoin2 : JsString.join "." (name_segment source :: path_segments source)
                   = first_segment source).
  { unfold name_segment, path_segments.
    pose proof (join_split "." (first_segment source)) as Hj.
    destruct (split_nonempty "." (first_segment source)) as (x & xs & E).
    rewrite E in *. exact Hj. }
  assert (Hparts : occurs "." (name_segment source) = false
                   /\ occurs "|" (name_segment source) = false
                   /\ Forall (fun seg => occurs "." seg = false /\ occurs "|" seg = false)
                        (path_segments source)).
  { unfold name_segment, path_segments.
    destruct (JsString.split "." (first_segment source)) as [|x xs];
      [repeat split; constructor|].
    inversion Hdots; inversion Hbars; subst. repeat split; try assumption.
    simpl. apply Forall_and. split; assumption. }
  destruct Hparts as (Hdot & Hbar' & Hsegs).
  exists (after_bangs (name_segment source)), (bangs (name_segment source)), l.
  assert (Hpath : path_list (mkBinding (nextBindingUID rt)
                               (Some (after_bangs (name_segment source)))
                               match path_segments source with [] => None | l0 => Some l0 end
                               d (_filter this))
                  = path_segments source).
  { unfold path_list; simpl. destruct (path_segments source); reflexivity. }
  rewrite Hpath. cbn [propertyName path].
  split; [reflexivity|].
  split; [apply after_bangs_clean|].
  split; [apply after_bangs_occurs; exact Hdot|].
  split; [apply after_bangs_occurs; exact Hbar'|].
  split; [destruct (path_segments source); discriminate|].
  split; [exact Hsegs|].
  split; [exact Hl|].
  split.
  { unfold steps_of at 1. cbn [_filter]. fold (steps_of this).
    rewrite Hsteps. unfold this0. rewrite steps_of_add_not. reflexivity. }
  assert (Hfs : bang_string (bangs (name_segment source))
                  +:+ JsString.join "." (after_bangs (name_segment source)
                                           :: path_segments source)
                = first_segment source).
  { rewrite <- Hjoin2. unfold bang_string.
    destruct (path_segments source) as [|seg segs]; cbn [JsString.join].
    - apply bangs_after_bangs.
    - rewrite <- append_assoc, bangs_after_bangs. reflexivity. }
  rewrite Hfs. exact Hjoin1.
Qed.

(** X3: the constructor takes exactly one identifier from the counter,
    whether it returns or throws, and touches nothing else of the runtime;
    a binding it returns carries that identifier and the given default;
    the only error it throws is [UnknownFilter], for the name of one of
    the filter segments. *)
Theorem constructor_takes_one_uid (source : option string) (d : value) (rt : runtime) :
  snd (new_Binding source d rt) = with_uid rt
  /\ match fst (new_Binding source d rt) with
     | Normal b => id b = nextBindingUID rt /\ defaultValue b = d
     | Throw e =>
         exists src part,
           source = Some src /\ In part (filter_segments src)
           /\ e = err Binding_UnknownFilter (Some (fst (split_format part)))
     end.
Proof.
  destruct source as [src|]; [|split; [reflexivity | split; reflexivity]].
  rewrite new_Binding_spec.
  pose proof (addFilters_frame (filter_segments src)
                (Nat.iter (bangs (name_segment src)) add_not
                   (mkBinding (nextBindingUID rt) None None d None))
                (with_uid rt)) as Hframe.
  destruct (addFilters _ (filter_segments src) (with_uid rt)) as [[this|e] rt']; simpl.
  - destruct Hframe as (-> & _). repeat split.
  - destruct Hframe as (-> & part & Hin & ->). split; [reflexivity|].
    exists src, part. repeat split. exact Hin.
Qed.

(** X4: [addFilter] ignores white space around its format. *)
Theorem addFilter_ignores_outer_space (this : Binding) (fmt : string) (rt : runtime) :
  addFilter this (JsString.trim fmt) rt = addFilter this fmt rt.
Proof.
  unfold addFilter, split_format. rewrite trim_idempotent. reflexivity.
Qed.

(** What [addFilter] needs of a name to find its argument: it is not
    empty, has no parenthesis and no white space at its ends. *)
Definition plain_name (k : string) : bool :=
  negb (String.eqb k "") && negb (occurs "(" k) && starts_clean k
  && String.eqb (JsString.trim k) k.

Lemma registry_names_plain : forallb (fun kv => plain_name (fst kv)) filters = true.
Proof. vm_compute. reflexivity. Qed.

Lemma own_filter_plain (k : string) (f : filter_fn) :
  own_filter k = Some f -> plain_name k = true.
Proof.
  unfold own_filter. destruct (List.find _ filters) as [kv|] eqn:Hfind; [|discriminate].
  intros _. apply List.find_some in Hfind as [Hin Heq].
  apply String.eqb_eq in Heq. subst k.
  exact (proj1 (List.forallb_forall _ filters) registry_names_plain kv Hin).
Qed.

Lemma split_format_call (k a : string) :
  plain_name k = true ->
  split_format (k +:+ String "(" (a +:+ ")")) = (k, Some (JsString.trim a)).
Proof.
  unfold plain_name. intros H.
  apply andb_prop in H as [H Htrim]. apply andb_prop in H as [H Hclean].
  apply andb_prop in H as [Hne Hparen].
  apply negb_true_iff in Hne, Hparen. apply String.eqb_neq in Hne.
  apply String.eqb_eq in Htrim.
  unfold split_format.
  assert (Hfmt : JsString.trim (k +:+ String "(" (a +:+ ")")) = k +:+ String "(" (a +:+ ")")).
  { unfold JsString.trim. rewrite trimStart_of_clean.
    - replace (k +:+ String "(" (a +:+ ")")) with ((k +:+ String "(" a) +:+ ")")
        by (rewrite append_assoc; reflexivity).
      apply trimEnd_keeps. reflexivity.
    - destruct k; [contradiction | exact Hclean]. }
  rewrite Hfmt.
  destruct (slices_of_call k a Hne Hparen) as (Hidx & Hpos & Hlast & Hname & Harg).
  rewrite Hidx, Hlast, Hname, Harg, Htrim.
  apply Z.ltb_lt in Hpos. rewrite Hpos. reflexivity.
Qed.

(** X5: for every name of the filter registry and every argument text,
    [addFilter] of [name(text)] chains the filter of that name with the
    trimmed text as its argument, and does not throw. *)
Theorem addFilter_reads_argument (this : Binding) (k a : string) (f : filter_fn)
    (rt : runtime) :
  own_filter k = Some f ->
  addFilter this (k +:+ String "(" (a +:+ ")")) rt
  = (Normal (set_filter this (Chain (_filter this) (StepFilter f (Some (JsString.trim a))))),
     rt).
Proof.
  intros Hown. unfold addFilter.
  rewrite (split_format_call k a (own_filter_plain k f Hown)).
  unfold lookup_filter. rewrite Hown. reflexivity.
Qed.

(** X5 on the format [pluck( name )]. *)
Lemma addFilter_reads_argument_witness :
  steps_of_outcome (fst (addFilter (mkBinding 16 (Some "items") None VUndef None)
                           "pluck( name )" initial_runtime))
  = Some [StepFilter F_pluck (Some "name")].
Proof.
  change "pluck( name )" with ("pluck" +:+ String "(" (" name " +:+ ")")).
  rewrite (addFilter_reads_argument (mkBinding 16 (Some "items") None VUndef None)
             "pluck" " name " F_pluck initial_runtime eq_refl).
  reflexivity.
Defined.

End ParseFacts.

(* ===================================================================== *)
(** * Further properties: the reader *)
(* ===================================================================== *)

Module ReaderFacts.
Import Errors Binding BindingFacts.

Section WithHost.
Context {host : Host}.

(** The loop over the path stops at [undefined] and [null] without
    reading anything. *)
Lemma walk_nullish (path : list string) (v : value) :
  Js.not_nullish v = false -> walk path v = Normal v.
Proof. intros H. destruct path; simpl; [reflexivity | rewrite H; reflexivity]. Qed.

(** The [in] test of the loop throws on a string, a number and a boolean. *)
Lemma walk_primitive (p : string) (rest : list string) (v : value) :
  Js.is_primitive v = true -> Js.not_nullish v = true ->
  walk (p :: rest) v = Throw TypeError.
Proof. intros Hprim Hnn. simpl. rewrite Hnn. unfold Js.has. rewrite Hprim. reflexivity. Qed.

(** X6: a nested path is resolved segment by segment, so that a path in
    two parts is the second part resolved on the result of the first; and
    once the value is [undefined] or [null] the rest of the path is left
    alone and that value is the result. *)
Theorem walk_composes (p q : list string) (v : value) :
  walk (p ++ q) v = walk p v ≫= walk q
  /\ (Js.not_nullish v = false -> walk (p ++ q) v = Normal v).
Proof.
  split; [|apply walk_nullish].
  revert v. induction p as [|a p IH]; intros v; [reflexivity|].
  cbn [app]. 
  destruct (Js.not_nullish v) eqn:Hnn.
  - simpl. rewrite Hnn.
    destruct (Js.has a v) as [found|e]; [|reflexivity]. simpl.
    destruct found.
    + destruct (Js.get v a) as [r|e]; [apply IH | reflexivity].
    + destruct (Js.get v "get") as [g|e]; [|reflexivity]. simpl.
      destruct (Js.callable g) as [f|].
      * destruct (Js.call_simple f v [VStr a]) as [r|e]; [apply IH | reflexivity].
      * destruct (Js.get v a) as [r|e]; [apply IH | reflexivity].
  - rewrite !walk_nullish by exact Hnn. simpl. symmetry. apply walk_nullish. exact Hnn.
Qed.

(** X7: when the top-level value of a binding with a nested path is a
    string, a number or a boolean, reading the binding throws a
    TypeError: the loop tests [p in result] on a value that is not an
    object. *)
Theorem path_through_primitive_throws (self : Binding) (boundParent : value)
    (name p : string) (rest : list string) (top : value) (rt : runtime) :
  propertyName self = Some name ->
  path self = Some (p :: rest) ->
  Js.get boundParent name = Normal top ->
  Js.is_primitive top = true ->
  Js.not_nullish top = true ->
  getValue self boundParent None rt = (Throw TypeError, rt).
Proof.
  intros Hname Hpath Hget Hprim Hnn. unfold getValue.
  rewrite Hname, Hpath, Hget.
  cbv beta iota delta [mbind M_bind mret M_ret lift].
  rewrite (walk_primitive p rest top Hprim Hnn). reflexivity.
Qed.

(** X8: a defined default value replaces [undefined] and nothing else:
    the value read is never [undefined] then, and it is the default only
    if that is what the filters gave or they gave [undefined]. *)
Theorem default_replaces_undefined (self : Binding) (boundParent : value)
    (hint : option value) (rt rt' : runtime) (r : value) :
  getValue self boundParent hint rt = (Normal r, rt') ->
  Js.strict_eq (defaultValue self) VUndef = false ->
  Js.strict_eq r VUndef = false
  /\ exists raw,
       getValue (mkBinding (id self) (propertyName self) (path self) VUndef (_filter self))
                boundParent hint rt = (Normal raw, rt')
       /\ (r = raw \/ (raw = VUndef /\ r = defaultValue self)).
Proof.
  intros Hget Hdef. unfold getValue in *. cbn [propertyName path _filter defaultValue].
  unfold mbind, M_bind in *.
  destruct (match hint with
            | Some propertyHint => mret propertyHint
            | None => match propertyName self with
                      | Some p => lift (Js.get boundParent p)
                      | None => mret VUndef
                      end
            end rt) as [[v1|e1] rt1]; [|discriminate Hget].
  destruct (match path self with
            | Some path => lift (walk path v1)
            | None => mret v1
            end rt1) as [[v2|e2] rt2]; [|discriminate Hget].
  destruct (match _filter self with
            | Some f => run_filter f v2
            | None => mret v2
            end rt2) as [[v3|e3] rt3]; [|discriminate Hget].
  unfold mret, M_ret in *. rewrite Hdef in Hget. simpl in Hget.
  injection Hget as <- <-.
  rewrite andb_true_r. change (Js.strict_eq VUndef VUndef) with true.
  rewrite andb_false_r.
  destruct (Js.strict_eq v3 VUndef) eqn:Hv3.
  - split; [exact Hdef|]. exists v3. split; [reflexivity|]. right.
    split; [destruct v3; try discriminate Hv3; reflexivity | reflexivity].
  - split; [exact Hv3|]. exists v3. split; [reflexivity | left; reflexivity].
Qed.

(** X9: [match] always reads as a boolean, [nonMatch] reads as its
    negation, and both fail exactly when the same read without them
    fails. *)
Theorem nonMatch_negates_match (self : Binding) (values : list value) (boundParent : value)
    (hint : option value) (rt : runtime) :
  match getValue (match_ self values) boundParent hint rt with
  | (Normal r, rt') =>
      exists b, r = VBool b
                /\ getValue (nonMatch self values) boundParent hint rt
                   = (Normal (VBool (negb b)), rt')
  | (Throw e, rt') =>
      getValue (nonMatch self values) boundParent hint rt = (Throw e, rt')
  end.
Proof.
  unfold getValue, match_, nonMatch, set_filter.
  cbn [propertyName path _filter defaultValue run_filter apply_step].
  unfold mbind, M_bind.
  destruct (match hint with
            | Some propertyHint => mret propertyHint
            | None => match propertyName self with
                      | Some p => lift (Js.get boundParent p)
                      | None => mret VUndef
                      end
            end rt) as [[v1|e1] rt1]; [|reflexivity].
  destruct (match path self with
            | Some path => lift (walk path v1)
            | None => mret v1
            end rt1) as [[v2|e2] rt2]; [|reflexivity].
  destruct (match _filter self with
            | Some old => run_filter old v2
            | None => mret v2
            end rt2) as [[v3|e3] rt3]; [|reflexivity].
  unfold mret, M_ret. simpl. eexists. split; reflexivity.
Qed.

End WithHost.

Section OnBareHost.
#[local] Existing Instance bare_host.

(** X7 on the binding for [name.length] and a parent whose [name] is a
    string. *)
Lemma path_through_primitive_throws_witness :
  getValue (mkBinding 16 (Some "name") (Some ["length"]) VUndef None)
           (VObj 1 [("name", VStr "abc")]) None initial_runtime
  = (Throw TypeError, initial_runtime).
Proof.
  apply (path_through_primitive_throws _ _ "name" "length" [] (VStr "abc")); reflexivity.
Defined.

(** X8 on a binding with default [-] read on a parent without the
    property. *)
Lemma default_replaces_undefined_witness :
  Js.strict_eq (VStr "-") VUndef = false
  /\ exists raw,
       getValue (mkBinding 16 (Some "title") None VUndef None) (VObj 1 []) None
                initial_runtime = (Normal raw, initial_runtime)
       /\ (VStr "-" = raw \/ (raw = VUndef /\ VStr "-" = VStr "-")).
Proof.
  exact (default_replaces_undefined
           (mkBinding 16 (Some "title") None (VStr "-") None) (VObj 1 []) None
           initial_runtime initial_runtime (VStr "-") eq_refl eq_refl).
Defined.

End OnBareHost.
End ReaderFacts.

(* ===================================================================== *)
(** * Further properties: the formatters *)
(* ===================================================================== *)

Module FilterFacts.
Import Errors Binding BindingFacts.

(** Two values that [_uniqueFormatter] takes for the same: equal strings,
    or values other than strings that are [===]. *)
Definition same_for_unique (w v : value) : bool :=
  match w, v with
  | VStr s, VStr t => String.eqb s t
  | VStr _, _ | _, VStr _ => false
  | _, _ => Js.strict_eq w v
  end.

(** No element is the same as one before it. *)
Inductive all_unique : list value -> Prop :=
| unique_nil : all_unique []
| unique_cons v r :
    Forall (fun w => same_for_unique w v = false) r ->
    all_unique r ->
    all_unique (v :: r).

(** An element that the filter of [_uniqueFormatter] lets through has not
    been seen. *)
Definition unseen (strings : list string) (values : list value) (w : value) : Prop :=
  match w with
  | VStr s => Js.mem s strings = false
  | _ => existsb (Js.strict_eq w) values = false
  end.

Lemma unseen_weaken_string (s : string) (strings : list string) (values : list value)
    (w : value) :
  unseen (s :: strings) values w -> unseen strings values w /\ same_for_unique w (VStr s) = false.
Proof.
  destruct w; simpl; try (intros H; split; [exact H | reflexivity]).
  unfold Js.mem. simpl. intros H. apply orb_false_elim in H as [Hs Hrest].
  split; assumption.
Qed.

Lemma unseen_weaken_value (v : value) (strings : list string) (values : list value)
    (w : value) :
  (forall s, v <> VStr s) ->
  unseen strings (values ++ [v])%list w -> unseen strings values w /\ same_for_unique w v = false.
Proof.
  intros Hv. destruct w; simpl;
    try (rewrite existsb_app; simpl; rewrite orb_false_r; intros H;
         apply orb_false_elim in H as [H1 H2]; split; [exact H1|];
         destruct v; try exact H2; exfalso; eapply Hv; reflexivity).
  intros H. split; [exact H|]. destruct v; try reflexivity. exfalso. eapply Hv; reflexivity.
Qed.

Lemma unique_filter_spec (l : list value) (strings : list string) (values : list value) :
  sublist (unique_filter l strings values) l
  /\ Forall (fun w => Js.not_nullish w = true /\ unseen strings values w)
            (unique_filter l strings values)
  /\ all_unique (unique_filter l strings values).
Proof.
  revert strings values. induction l as [|v l IH]; intros strings values; simpl.
  - repeat split; constructor.
  - destruct (Js.not_nullish v) eqn:Hnn; simpl.
    2:{ destruct (IH strings values) as (Hsub & Hall & Huniq).
        split; [apply sublist_cons; exact Hsub | split; assumption]. }
    assert (Hskip : sublist (unique_filter l strings values) (v :: l)
                    /\ Forall (fun w => Js.not_nullish w = true /\ unseen strings values w)
                              (unique_filter l strings values)
                    /\ all_unique (unique_filter l strings values)).
    { destruct (IH strings values) as (Hsub & Hall & Huniq).
      split; [apply sublist_cons; exact Hsub | split; assumption]. }
    assert (Hkeep_value :
              (forall s, v <> VStr s) ->
              existsb (Js.strict_eq v) values = false ->
              sublist (v :: unique_filter l strings (values ++ [v])%list) (v :: l)
              /\ Forall (fun w => Js.not_nullish w = true /\ unseen strings values w)
                        (v :: unique_filter l strings (values ++ [v])%list)
              /\ all_unique (v :: unique_filter l strings (values ++ [v])%list)).
    { intros Hv Hnew.
      destruct (IH strings (values ++ [v])%list) as (Hsub & Hall & Huniq).
      split; [apply sublist_skip; exact Hsub|].
      split.
      - constructor.
        + split; [exact Hnn|]. destruct v; try exact Hnew. exfalso. eapply Hv; reflexivity.
        + eapply Forall_impl; [exact Hall|]. intros w [Hw Hu]. split; [exact Hw|].
          exact (proj1 (unseen_weaken_value v strings values w Hv Hu)).
      - constructor; [|exact Huniq].
        eapply Forall_impl; [exact Hall|]. intros w [_ Hu].
        exact (proj2 (unseen_weaken_value v strings values w Hv Hu)). }
    destruct v as [| |b|x|s|i e|i e|p|f];
      try discriminate Hnn; cbn beta iota;
      try (match goal with
           | |- context [existsb ?f values] => case_eq (existsb f values); intros Hseen
           end;
           [exact Hskip | apply Hkeep_value; [intros s; discriminate | exact Hseen]]).
    destruct (Js.mem s strings) eqn:Hseen; [exact Hskip|].
    destruct (IH (s :: strings) values) as (Hsub & Hall & Huniq).
    split; [apply sublist_skip; exact Hsub|].
    split.
    + constructor; [split; [reflexivity | exact Hseen]|].
      eapply Forall_impl; [exact Hall|]. intros w [Hw Hu]. split; [exact Hw|].
      exact (proj1 (unseen_weaken_string s strings values w Hu)).
    + constructor; [|exact Huniq].
      eapply Forall_impl; [exact Hall|]. intros w [_ Hu].
      exact (proj2 (unseen_weaken_string s strings values w Hu)).
Qed.

Lemma unique_filter_fixed (l : list value) (strings : list string) (values : list value) :
  unique_filter (unique_filter l strings values) strings values
  = unique_filter l strings values.
Proof.
  revert strings values. induction l as [|v l IH]; intros strings values; simpl;
    [reflexivity|].
  destruct (Js.not_nullish v) eqn:Hnn; simpl; [|apply IH].
  destruct v as [| |b|x|s|i e|i e|p|f];
    try discriminate Hnn; cbn beta iota;
    try (destruct (existsb _ values) eqn:Hseen; [apply IH|];
         simpl; rewrite Hseen; rewrite IH; reflexivity).
  destruct (Js.mem s strings) eqn:Hseen; [apply IH|].
  simpl. rewrite Hseen, IH. reflexivity.
Qed.

Section WithHost.
Context {host : Host}.

(** X10: the int filter never fails to leave the runtime as it was; what
    it returns is a number that is not negative zero, and it is 0 for
    [undefined] and [null]. *)
Theorem intFormatter_never_negative_zero (d : value) (rt : runtime) :
  snd (_intFormatter d rt) = rt
  /\ match fst (_intFormatter d rt) with
     | Normal r =>
         exists x, r = VNum x /\ x <> neg_zero /\ (Js.not_nullish d = false -> x = zero)
     | Throw _ => Js.not_nullish d = true
     end.
Proof.
  unfold _intFormatter, _formatNotUndefined, parseFloat_.
  destruct (Js.not_nullish d) eqn:Hnn.
  - unfold mbind, M_bind, lift, mret, M_ret.
    destruct (Js.parseFloat d) as [x|e]; [|split; reflexivity].
    cbn [Js.to_number Js.prim_to_number mret outcome_ret snd fst].
    split; [reflexivity|]. eexists. split; [reflexivity|].
    split; [|discriminate].
    destruct (PrimFloat.ltb zero (JsNumber.Math_round x)) eqn:Hpos.
    + intros Heq. rewrite Heq in Hpos. vm_compute in Hpos. discriminate Hpos.
    + destruct (PrimFloat.ltb (JsNumber.Math_round x) zero) eqn:Hneg.
      * intros Heq. rewrite Heq in Hneg. vm_compute in Hneg. discriminate Hneg.
      * apply not_eq_sym, neg_zero_is_not_zero.
  - split; [reflexivity|]. cbn. eexists. split; [reflexivity|].
    split; [apply not_eq_sym, neg_zero_is_not_zero | reflexivity].
Qed.

(** X11: what the blank filter returns is formatted as the empty string
    by the string filter, without a report to the sink, whatever the value
    was; the blank filter itself reports nothing. *)
Theorem blank_formats_as_empty (d : value) (rt rt' : runtime) (b : value) :
  _blankFormatter d rt = (Normal b, rt') ->
  _stringFormatter b rt' = (Normal "", rt')
  /\ unhandled rt' = unhandled rt
  /\ Js.to_string b = Normal "".
Proof.
  unfold _blankFormatter. unfold mbind at 1, M_bind at 1.
  destruct ((if Js.not_nullish d
             then m ← lift (Js.get d "valueOf");
                  match Js.callable m with
                  | Some f => lift (Js.call_simple f d [])
                  | None => mret d
                  end
             else mret d : M value) rt) as [[d'|e] rt1] eqn:Hd; [|discriminate].
  assert (Hrt1 : rt1 = rt).
  { destruct (Js.not_nullish d).
    - unfold mbind, M_bind, lift in Hd. destruct (Js.get d "valueOf") as [m|]; [|discriminate Hd].
      destruct (Js.callable m); unfold lift, mret, M_ret in Hd; congruence.
    - unfold mret, M_ret in Hd. congruence. }
  subst rt1. cbn. intros H. injection H as <- <-.
  repeat split.
Qed.

(** X12: on an array (that the host does not take for a managed list) the
    unique filter returns a new array; its elements are elements of the
    given array in their order, none is [undefined] or [null], no string
    occurs twice and no two other elements are [===]. A second pass of
    the filter changes nothing. *)
Theorem uniqueFormatter_on_array (i : nat) (l : list value) (rt : runtime) :
  managedListToArray (VArr i l) = None ->
  _uniqueFormatter (VArr i l) rt
  = (Normal (VArr (nextObjectId rt) (unique_filter l [] [])),
     mkRuntime (unhandled rt) (S (nextObjectId rt)) (nextBindingUID rt))
  /\ sublist (unique_filter l [] []) l
  /\ Forall (fun w => Js.not_nullish w = true) (unique_filter l [] [])
  /\ all_unique (unique_filter l [] [])
  /\ unique_filter (unique_filter l [] []) [] [] = unique_filter l [] [].
Proof.
  intros Hhost. split.
  { unfold _uniqueFormatter. rewrite Hhost. reflexivity. }
  destruct (unique_filter_spec l [] []) as (Hsub & Hall & Huniq).
  split; [exact Hsub|].
  split; [eapply Forall_impl; [exact Hall | intros w [Hw _]; exact Hw]|].
  split; [exact Huniq | apply unique_filter_fixed].
Qed.

(** Reading a property of a value that is not [undefined] or [null]. *)
Definition read (v : value) (key : string) : value :=
  match Js.get v key with
  | Normal x => x
  | Throw _ => VUndef
  end.

Lemma get_truthy (v : value) (key : string) :
  Js.ToBoolean v = true -> Js.get v key = Normal (read v key).
Proof.
  unfold read, Js.get.
  destruct v; try discriminate; intros _;
    match goal with
    | |- context [Js.own_prop ?v ?k] =>
        destruct (Js.own_prop v k); [reflexivity|];
        destruct (Js.inherited_prop v k); reflexivity
    end.
Qed.

(** X13: on an array the pluck filter does not throw; it returns a new
    array of the same length, in which every truthy element is replaced by
    its property of the given name and every falsy element is kept. *)
Theorem pluckFormatter_on_array (i : nat) (l : list value) (p : string) (rt : runtime) :
  _pluckFormatter (VArr i l) (VStr p) rt
  = (Normal (VArr (nextObjectId rt)
               (List.map (fun v => if Js.ToBoolean v then read v p else v) l)),
     mkRuntime (unhandled rt) (S (nextObjectId rt)) (nextBindingUID rt)).
Proof.
  unfold _pluckFormatter.
  change (Js.to_string (VStr p)) with (Normal p : outcome string).
  unfold mbind at 1, M_bind at 1, lift at 1.
  unfold mbind at 1, M_bind at 1.
  assert (Heach : forall l0 r,
            (fix each (l1 : list value) : M (list value) :=
               match l1 with
               | [] => mret []
               | v :: r0 =>
                   x ← (if Js.ToBoolean v then lift (Js.get v p) else mret v : M value);
                   rest ← each r0;
                   mret (x :: rest)
               end) l0 r
            = (Normal (List.map (fun v => if Js.ToBoolean v then read v p else v) l0), r)).
  { induction l0 as [|v l0 IH]; intros r; [reflexivity|].
    unfold mbind, M_bind. destruct (Js.ToBoolean v) eqn:Hv.
    - rewrite (get_truthy v p Hv). unfold lift. rewrite IH. simpl. rewrite Hv. reflexivity.
    - unfold mret at 1, M_ret at 1. rewrite IH. simpl. rewrite Hv. reflexivity. }
  rewrite Heach. reflexivity.
Qed.

End WithHost.

Section OnBareHost.
#[local] Existing Instance bare_host.

(** X11 on the number 3. *)
Lemma blank_formats_as_empty_witness :
  exists b rt',
    _blankFormatter (VNum 3) initial_runtime = (Normal b, rt')
    /\ _stringFormatter b rt' = (Normal "", rt').
Proof.
  eexists _, _. split; [vm_compute; reflexivity|].
  refine (proj1 (blank_formats_as_empty (VNum 3) initial_runtime _ _ _)).
  vm_compute. reflexivity.
Defined.

(** X12 on an array with a repeated string, a repeated number and holes. *)
Lemma uniqueFormatter_on_array_witness :
  unique_filter [VStr "a"; VUndef; VNum 1; VStr "a"; VNull; VNum 1; VStr "b"] [] []
  = [VStr "a"; VNum 1; VStr "b"]
  /\ all_unique [VStr "a"; VNum 1; VStr "b"].
Proof.
  pose proof (uniqueFormatter_on_array 1
                [VStr "a"; VUndef; VNum 1; VStr "a"; VNull; VNum 1; VStr "b"]
                initial_runtime eq_refl) as (_ & _ & _ & Huniq & _).
  split; [vm_compute; reflexivity | exact Huniq].
Defined.

End OnBareHost.
End FilterFacts.

(* ===================================================================== *)
(** * Further properties: propagation through bound instances *)
(* ===================================================================== *)

Module PropagationFacts.
Import Errors Bound BoundFacts.

Section Propagation.
Context {P : Type}.
Variable reader : nat -> gmap nat Bound -> P -> option value -> M value.

(** What a call that ends adds to the trace, along any chain of parents:
    when it throws, reads only. *)
Lemma updateComponents_frame (fuel : nat) :
  forall (key : nat) (hint : option value) (p : P) (w w' : world) (o : outcome unit),
    updateComponents reader fuel key hint p w = Some (o, w') ->
    exists evs, trace w' = (trace w ++ evs)%list
                /\ (forall e, o = Throw e -> List.filter is_update evs = []).
Proof.
  induction fuel as [|fuel IH]; intros key hint p w w' o Hcall; [discriminate Hcall|].
  cbn [updateComponents] in Hcall.
  destruct (bounds w !! key) as [this|] eqn:Hkey; [|discriminate Hcall].
  destruct ((count this =? 0)%nat && negb (bool_decide (is_Some (parent this)))).
  { injection Hcall as <- <-. cbn [bounds trace].
    exists []. rewrite app_nil_r. split; [reflexivity | intros e He; discriminate He]. }
  unfold run_rt, log_event in Hcall. cbn [bounds rt trace] in Hcall.
  destruct (reader key (bounds w) p hint (rt w)) as [[v|e] r1].
  2:{ injection Hcall as <- <-. cbn [bounds trace].
      exists [Read key hint]. split; [reflexivity | intros _ _; reflexivity]. }
  destruct (negb (hasValue this) || negb (Js.strict_eq (_lastValue this) v)).
  2:{ injection Hcall as <- <-. cbn [bounds trace].
      exists [Read key hint]. split; [reflexivity | intros e He; discriminate He]. }
  destruct (parent this) as [pk|].
  - apply IH in Hcall. cbn [bounds trace] in Hcall.
    destruct Hcall as (evs & Ht & Hthrow).
    exists (Read key hint :: evs). split.
    + rewrite Ht, <- app_assoc. reflexivity.
    + intros e He. cbn [List.filter is_update]. apply (Hthrow e He).
  - injection Hcall as <- <-. rewrite forEach_notify. cbn [bounds trace].
    exists (Read key hint :: updates (Binding.id (binding this)) v (components this)).
    split; [rewrite <- app_assoc; reflexivity | intros e He; discriminate He].
Qed.

(** X15: a call of [updateComponents] that throws, which only a reader can
    make it do, has called no update hook, on this instance or on one up the
    chain of parents: the trace grows by reads only. *)
Theorem updateComponents_throw_calls_no_hook (fuel key : nat) (hint : option value) (p : P)
    (w w' : world) (e : exn) :
  updateComponents reader fuel key hint p w = Some (Throw e, w') ->
  exists evs, trace w' = (trace w ++ evs)%list
              /\ List.filter is_update evs = []
              /\ List.filter is_update (trace w') = List.filter is_update (trace w).
Proof.
  intros Hcall.
  destruct (updateComponents_frame fuel key hint p w w' _ Hcall) as (evs & Ht & Hthrow).
  exists evs. split; [exact Ht|]. split; [exact (Hthrow e eq_refl)|].
  rewrite Ht, List.filter_app, (Hthrow e eq_refl), app_nil_r. reflexivity.
Qed.

(** X16: an instance with a parent instance hands a new value up: when the
    reader of the instance returns a value that is new and the reader of
    its parent, an instance without parent that has consumers, returns a
    value that is new, the call reads the instance with the argument given,
    reads the parent without argument and calls the hooks of the parent's
    consumers, under the parent's binding id, with the parent's value. The
    consumers of the instance itself are not called. Both caches are
    valid afterwards. *)
Theorem updateComponents_delegates_to_parent (fuel key pk : nat) (hint : option value)
    (p : P) (w : world) (this pthis : Bound) (v pv : value) (r1 r2 : runtime) :
  bounds w !! key = Some this ->
  parent this = Some pk ->
  pk <> key ->
  bounds w !! pk = Some pthis ->
  parent pthis = None ->
  components pthis <> [] ->
  reader key (bounds w) p hint (rt w) = (Normal v, r1) ->
  hasValue this = false \/ Js.strict_eq (_lastValue this) v = false ->
  reader pk (<[key := set_cache this true v]> (bounds w)) p None r1 = (Normal pv, r2) ->
  hasValue pthis = false \/ Js.strict_eq (_lastValue pthis) pv = false ->
  exists w',
    updateComponents reader (S (S fuel)) key hint p w = Some (Normal (), w')
    /\ trace w' = (trace w ++ Read key hint :: Read pk None
                      :: updates (Binding.id (binding pthis)) pv (components pthis))%list
    /\ bounds w' !! key = Some (set_cache this true v)
    /\ bounds w' !! pk = Some (set_cache pthis true pv)
    /\ unhandled (rt w')
       = (unhandled r2 ++ failures (Binding.id (binding pthis)) pv (components pthis))%list.
Proof.
  intros Hkey Hparent Hne Hpk Hroot Hcs Hread Hnew Hpread Hpnew.
  assert (Hcond : negb (hasValue this) || negb (Js.strict_eq (_lastValue this) v) = true).
  { destruct Hnew as [-> | ->]; [reflexivity | apply orb_true_r]. }
  assert (Hpcond : negb (hasValue pthis) || negb (Js.strict_eq (_lastValue pthis) pv) = true).
  { destruct Hpnew as [-> | ->]; [reflexivity | apply orb_true_r]. }
  set (w1 := mkWorld (<[key := set_cache this true v]> (bounds w)) r1
                     (trace w ++ [Read key hint])).
  assert (Hstep : updateComponents reader (S (S fuel)) key hint p w
                  = updateComponents reader (S fuel) pk None p w1).
  { cbn [updateComponents]. rewrite Hkey, Hparent.
    assert (Hsome : bool_decide (is_Some (Some pk)) = true)
      by (apply bool_decide_eq_true_2; eexists; reflexivity).
    rewrite Hsome, andb_false_r.
    unfold run_rt, log_event. cbn [bounds rt trace]. rewrite Hread, Hcond.
    reflexivity. }
  assert (Hpk1 : bounds w1 !! pk = Some pthis).
  { subst w1. cbn [bounds]. rewrite lookup_insert_ne by congruence. exact Hpk. }
  rewrite Hstep.
  rewrite (updateComponents_root reader fuel pk None p w1 pthis pv r2 Hpk1 Hroot Hcs Hpread).
  rewrite Hpcond. eexists. split; [reflexivity|]. subst w1. cbn [bounds rt trace].
  split; [rewrite <- !app_assoc; reflexivity|].
  split; [rewrite lookup_insert_ne by exact Hne; apply lookup_insert_eq|].
  split; [apply lookup_insert_eq | reflexivity].
Qed.

(** X17: after [updateComponents] has returned on an instance without
    parent that has consumers, the [value] getter answers from the cache:
    it calls no reader, whatever the state of the bound parent is by then,
    and leaves everything as it is. What it returns is the value the reader
    returned in the update, or the value cached before when that one is
    [===] to it. *)
Theorem value_after_update_is_cached (fuel key : nat) (hint : option value) (p p' : P)
    (w : world) (this : Bound) (v : value) (r' : runtime) :
  bounds w !! key = Some this ->
  parent this = None ->
  components this <> [] ->
  reader key (bounds w) p hint (rt w) = (Normal v, r') ->
  exists w1 last,
    updateComponents reader (S fuel) key hint p w = Some (Normal (), w1)
    /\ value_of reader key p' w1 = Some (Normal last, w1)
    /\ (last = v \/ (last = _lastValue this /\ Js.strict_eq last v = true)).
Proof.
  intros Hkey Hparent Hcs Hread.
  rewrite (updateComponents_root reader fuel key hint p w this v r' Hkey Hparent Hcs Hread).
  destruct (negb (hasValue this) || negb (Js.strict_eq (_lastValue this) v)) eqn:Hcond.
  - eexists _, v. split; [reflexivity|]. split; [|left; reflexivity].
    unfold value_of. cbn [bounds]. rewrite lookup_insert_eq. reflexivity.
  - apply orb_false_elim in Hcond as [Hhas Hsame].
    apply negb_false_iff in Hhas. apply negb_false_iff in Hsame.
    eexists _, (_lastValue this). split; [reflexivity|]. split; [|right; split; [reflexivity | exact Hsame]].
    unfold value_of. cbn [bounds]. rewrite Hkey, Hhas. reflexivity.
Qed.

End Propagation.

Section OnBareHost.
#[local] Existing Instance bare_host.

(** A store with the instance of a binding under key 1, whose parent
    instance under key 2 has two consumers; the instance has a consumer of
    its own. The reader of the instance reads [x|n] from the bound parent,
    the reader of the parent instance reads the value of the instance. *)
Definition listener : Component := mkComponent 5 (fun _ => Some (fun _ => None)).

Definition binding_parent : Binding.Binding := Binding.mkBinding 17 None None VUndef None.

Definition nested_reader (key : nat) (bs : gmap nat Bound) (boundParent : value)
  (hint : option value) : M value :=
  if (key =? 1)%nat then Binding.getValue binding_x_n boundParent hint
  else match bs !! 1%nat with
       | Some child => mret (_lastValue child)
       | None => mret VUndef
       end.

Definition nested_world : world :=
  mkWorld (<[1%nat := mkBound binding_x_n (Some 2%nat) (Some "x") [listener] None VUndef]>
             {[ 2%nat := mkBound binding_parent None None [quiet; listener] None VUndef ]})
          initial_runtime [].

(** X15 on a bound parent whose property makes the reader throw. *)
Lemma updateComponents_throw_calls_no_hook_witness :
  exists w' e,
    updateComponents nested_reader 2 1 None VNull nested_world = Some (Throw e, w')
    /\ List.filter is_update (trace w') = [].
Proof.
  destruct (updateComponents nested_reader 2 1 None VNull nested_world)
    as [[[[]|e] w']|] eqn:Hcall; try (vm_compute in Hcall; discriminate Hcall).
  exists w', e. split; [reflexivity|].
  destruct (updateComponents_throw_calls_no_hook nested_reader 2 1 None VNull
              nested_world w' e Hcall) as (evs & _ & _ & Hsame).
  exact Hsame.
Defined.

(** X16 on the nested store: the hooks of the parent's consumers are
    called, the hook of the instance's own consumer is not. *)
Lemma updateComponents_delegates_to_parent_witness :
  exists w',
    updateComponents nested_reader 2 1 None parent_12 nested_world = Some (Normal (), w')
    /\ trace w' = [Read 1 None; Read 2 None; Update 5 17 (VNum 12)].
Proof.
  destruct (updateComponents_delegates_to_parent nested_reader 0 1 2 None parent_12
              nested_world
              (mkBound binding_x_n (Some 2%nat) (Some "x") [listener] None VUndef)
              (mkBound binding_parent None None [quiet; listener] None VUndef)
              (VNum 12) (VNum 12) initial_runtime initial_runtime)
    as (w' & Hcall & Htrace & _).
  - reflexivity.
  - reflexivity.
  - discriminate.
  - reflexivity.
  - reflexivity.
  - discriminate.
  - vm_compute. reflexivity.
  - left. reflexivity.
  - vm_compute. reflexivity.
  - left. reflexivity.
  - exists w'. split; [exact Hcall | exact Htrace].
Defined.

(** X17 on the store of one instance with a consumer: the value is read
    back when the bound parent has changed in between. *)
Lemma value_after_update_is_cached_witness :
  exists w1,
    updateComponents reader_x_n 1 1 None parent_12 (world_of [quiet]) = Some (Normal (), w1)
    /\ value_of reader_x_n 1 parent_abc w1 = Some (Normal (VNum 12), w1).
Proof.
  destruct (value_after_update_is_cached reader_x_n 0 1 None parent_12 parent_abc
              (world_of [quiet])
              (mkBound binding_x_n None (Some "x") [quiet] None VUndef)
              (VNum 12) initial_runtime)
    as (w1 & last & Hcall & Hvalue & Hlast).
  - reflexivity.
  - reflexivity.
  - discriminate.
  - vm_compute. reflexivity.
  - exists w1. split; [exact Hcall|].
    destruct Hlast as [-> | [-> Hsame]]; [exact Hvalue|].
    vm_compute in Hsame. discriminate Hsame.
Defined.

End OnBareHost.
End PropagationFacts.

(* ===================================================================== *)
(** * Further properties: the service registry *)
(* ===================================================================== *)

Module RegistryFacts.
Import Service.

Section WithReferences.
Context {references : References}.

(** The containers that the empty one can become by registrations and by
    uses of the decorator. *)
Inductive reachable : ServiceContainer -> Prop :=
| reach_empty : reachable empty_container
| reach_register this c c' :
    reachable c -> register this c = Normal c' -> reachable c'
| reach_service n c :
    reachable c -> reachable (service n c).

(** What holds of every slot of such a container. *)
Definition well_keyed (c : ServiceContainer) : Prop :=
  forall k ref,
    services c !! k = Some ref ->
    JsString.toUpperCase k = k
    /\ restricted ref = true
    /\ propagating ref = true
    /\ (forall s, target ref = Some s -> JsString.toUpperCase (name s) = k /\ k <> "").

Lemma register_inserts (this : ManagedService) (c c' : ServiceContainer) :
  register this c = Normal c' ->
  JsString.toUpperCase (name this) <> ""
  /\ exists ref,
       services c' = <[JsString.toUpperCase (name this) := ref]> (services c)
       /\ target ref = Some this
       /\ (restricted ref = true /\ propagating ref = true
           \/ exists old, services c !! JsString.toUpperCase (name this) = Some old
                          /\ restricted ref = restricted old
                          /\ propagating ref = propagating old).
Proof.
  unfold register.
  destruct (String.eqb_spec (JsString.toUpperCase (name this)) "") as [|Hname];
    [discriminate|].
  destruct (services c !! JsString.toUpperCase (name this)) as [old|] eqn:Hold;
    intros H; injection H as <-; (split; [exact Hname|]); eexists;
    (split; [reflexivity|]); (split; [reflexivity|]).
  - right. exists old. repeat split.
  - left. split; reflexivity.
Qed.

Lemma reachable_well_keyed (c : ServiceContainer) : reachable c -> well_keyed c.
Proof.
  induction 1 as [|this c c' _ IH Hreg|n c _ IH]; intros k ref Hk.
  - discriminate Hk.
  - destruct (register_inserts this c c' Hreg) as (Hname & ref' & Hmap & Htarget & Hflags).
    rewrite Hmap in Hk.
    destruct (decide (JsString.toUpperCase (name this) = k)) as [Heq|Hne].
    + rewrite Heq, lookup_insert_eq in Hk. injection Hk as <-.
      split; [rewrite <- Heq; apply StringFacts.toUpperCase_idempotent|].
      assert (Hboth : restricted ref' = true /\ propagating ref' = true).
      { destruct Hflags as [Hnew | (old & Hold & Hr & Hp)]; [exact Hnew|].
        rewrite Heq in Hold. destruct (IH k old Hold) as (_ & Hr' & Hp' & _).
        split; congruence. }
      split; [exact (proj1 Hboth)|]. split; [exact (proj2 Hboth)|].
      intros s Hs. rewrite Htarget in Hs. injection Hs as <-.
      split; [exact Heq | rewrite <- Heq; exact Hname].
    + rewrite lookup_insert_ne in Hk by exact Hne. exact (IH k ref Hk).
  - unfold service in Hk.
    destruct (services c !! JsString.toUpperCase n) eqn:Hn; [exact (IH k ref Hk)|].
    cbn [services] in Hk.
    destruct (decide (JsString.toUpperCase n = k)) as [Heq|Hne].
    + rewrite Heq, lookup_insert_eq in Hk. injection Hk as <-.
      split; [rewrite <- Heq; apply StringFacts.toUpperCase_idempotent|].
      split; [reflexivity|]. split; [reflexivity|]. intros s Hs. discriminate Hs.
    + rewrite lookup_insert_ne in Hk by exact Hne. exact (IH k ref Hk).
Qed.

(** X18: a registration throws exactly when the name of the service is the
    empty string, and then with the blank-name error. Otherwise [find]
    returns the service for every casing of its name afterwards and returns
    what it returned before for every other name; the map has the key of
    the upper-cased name besides the keys it had, and the registration
    alone undoes nothing: a second registration of the same service
    leaves what [find] returns as it is. *)
Theorem register_then_find (this : ManagedService) (c : ServiceContainer) :
  match register this c with
  | Throw e => e = blank_name /\ name this = ""
  | Normal c' =>
      name this <> ""
      /\ (forall n, JsString.toUpperCase n = JsString.toUpperCase (name this) ->
                    find n c' = Some this)
      /\ (forall n, JsString.toUpperCase n <> JsString.toUpperCase (name this) ->
                    find n c' = find n c)
      /\ dom (services c') = {[ JsString.toUpperCase (name this) ]} ∪ dom (services c)
      /\ exists c'', register this c' = Normal c''
                      /\ services c'' = services c'
                      /\ forall n, find n c'' = find n c'
  end.
Proof.
  destruct (register this c) as [c'|e] eqn:Hreg.
  2:{ unfold register in Hreg.
      destruct (String.eqb_spec (JsString.toUpperCase (name this)) "") as [Hblank|Hname].
      - injection Hreg as <-.
        split; [reflexivity | apply StringFacts.toUpperCase_blank; exact Hblank].
      - destruct (services c !! JsString.toUpperCase (name this)); discriminate Hreg. }
  destruct (register_inserts this c c' Hreg) as (Hname & ref & Hmap & Htarget & _).
  assert (Hne : name this <> "") by (intros Heq; apply Hname; rewrite Heq; reflexivity).
  split; [exact Hne|].
  split; [intros n Hn; unfold find; rewrite Hn, Hmap, lookup_insert_eq; exact Htarget|].
  split.
  { intros n Hn. unfold find. rewrite Hmap, lookup_insert_ne by congruence. reflexivity. }
  split; [rewrite Hmap; apply dom_insert_L|].
  assert (Hslot : services c' !! JsString.toUpperCase (name this) = Some ref)
    by (rewrite Hmap; apply lookup_insert_eq).
  assert (Hsame : fst (set_target ref this) = ref).
  { unfold set_target. cbn [fst]. rewrite <- Htarget. destruct ref; reflexivity. }
  pose proof (ServiceFacts.register_nonblank this c' Hname) as Hagain.
  rewrite Hslot, Hsame in Hagain.
  eexists. split; [exact Hagain|]. cbn [services].
  assert (Hid : <[JsString.toUpperCase (name this) := ref]> (services c') = services c')
    by (apply insert_id; exact Hslot).
  split; [exact Hid|].
  intros n. unfold find. cbn [services]. rewrite Hid. reflexivity.
Qed.

(** X19: in every container that registrations and decorators can build,
    a service found under a name has that name up to case, so its name is
    not blank; every key of the map is in upper case and every reference
    in it is restricted and propagates events. In particular nothing is
    found under the blank name, also after a decorator asked for it. *)
Theorem find_returns_named_service (c : ServiceContainer) (n : string) (s : ManagedService) :
  reachable c ->
  find n c = Some s ->
  JsString.toUpperCase (name s) = JsString.toUpperCase n
  /\ name s <> ""
  /\ n <> ""
  /\ forall k ref, services c !! k = Some ref ->
                   JsString.toUpperCase k = k /\ restricted ref = true /\ propagating ref = true.
Proof.
  intros Hreach Hfind. pose proof (reachable_well_keyed c Hreach) as Hwk.
  unfold find in Hfind.
  destruct (services c !! JsString.toUpperCase n) as [ref|] eqn:Href; [|discriminate Hfind].
  destruct (Hwk _ ref Href) as (_ & _ & _ & Htarget).
  destruct (Htarget s Hfind) as [Hname Hkey].
  split; [exact Hname|].
  split; [intros Heq; apply Hkey; rewrite <- Hname, Heq; reflexivity|].
  split; [intros Heq; apply Hkey; rewrite Heq; reflexivity|].
  intros k ref' Hk. destruct (Hwk k ref' Hk) as (H1 & H2 & H3 & _). repeat split; assumption.
Qed.

(** X20: the decorator changes nothing that [find] returns and destroys
    nothing, a second use for the same name changes nothing at all, and it
    makes no difference whether a property is decorated before or after a
    service is registered: the container is the same. *)
Theorem service_decorator_commutes (n : string) (this : ManagedService)
    (c : ServiceContainer) :
  (forall m, find m (service n c) = find m c)
  /\ destroyed (service n c) = destroyed c
  /\ service n (service n c) = service n c
  /\ register this (service n c) = (c' ← register this c; Normal (service n c')).
Proof.
  split.
  { intros m. unfold service, find.
    destruct (services c !! JsString.toUpperCase n) eqn:Hn; [reflexivity|].
    cbn [services].
    destruct (decide (JsString.toUpperCase n = JsString.toUpperCase m)) as [Heq|Hne].
    - rewrite <- Heq, lookup_insert_eq, Hn. reflexivity.
    - rewrite lookup_insert_ne by exact Hne. reflexivity. }
  split.
  { unfold service. destruct (services c !! JsString.toUpperCase n); reflexivity. }
  split.
  { unfold service.
    destruct (services c !! JsString.toUpperCase n) eqn:Hn.
    - rewrite Hn. reflexivity.
    - cbn [services]. rewrite lookup_insert_eq. reflexivity. }
  unfold register.
  destruct (String.eqb (JsString.toUpperCase (name this)) ""); [reflexivity|].
  unfold service.
  set (uc := JsString.toUpperCase (name this)). set (un := JsString.toUpperCase n).
  destruct (services c !! un) as [slot|] eqn:Hn.
  - destruct (services c !! uc) as [ref|] eqn:Href;
      cbn [set_target mbind outcome_bind services].
    + destruct (decide (uc = un)) as [Heq|Hne].
      * rewrite <- Heq, lookup_insert_eq. reflexivity.
      * rewrite lookup_insert_ne by exact Hne. rewrite Hn. reflexivity.
    + destruct (decide (uc = un)) as [Heq|Hne].
      * rewrite <- Heq, lookup_insert_eq. reflexivity.
      * rewrite lookup_insert_ne by exact Hne. rewrite Hn. reflexivity.
  - cbn [services destroyed].
    destruct (decide (un = uc)) as [Heq|Hne].
    + rewrite <- Heq, lookup_insert_eq, Hn.
      cbn [set_target mbind outcome_bind services destroyed target new_reference
           restricted propagating].
      rewrite lookup_insert_eq, insert_insert_eq. reflexivity.
    + rewrite lookup_insert_ne by exact Hne.
      destruct (services c !! uc) as [ref|] eqn:Href;
        cbn [set_target mbind outcome_bind services destroyed];
        rewrite lookup_insert_ne by congruence; rewrite Hn;
        rewrite (insert_insert_ne _ uc un) by congruence; reflexivity.
Qed.

End WithReferences.

Section OnSharedReferences.
#[local] Existing Instance ServiceFacts.shared_references.

(** X19 on a container with a decorated blank name and a registered
    service. *)
Lemma find_returns_named_service_witness :
  exists c,
    register ServiceFacts.service_x (service "" empty_container) = Normal c
    /\ find "app.mail" c = Some ServiceFacts.service_x
    /\ JsString.toUpperCase (name ServiceFacts.service_x) = JsString.toUpperCase "app.mail".
Proof.
  destruct (register ServiceFacts.service_x (service "" empty_container)) as [c|e] eqn:Hreg;
    [|vm_compute in Hreg; discriminate Hreg].
  exists c. split; [reflexivity|].
  assert (Hfind : find "app.mail" c = Some ServiceFacts.service_x).
  { vm_compute in Hreg. injection Hreg as <-. vm_compute. reflexivity. }
  split; [exact Hfind|].
  refine (proj1 (find_returns_named_service c "app.mail" ServiceFacts.service_x _ Hfind)).
  eapply reach_register; [apply reach_service, reach_empty | exact Hreg].
Defined.

End OnSharedReferences.

End RegistryFacts.

(* ===================================================================== *)
(** * Further properties: the modal controller *)
(* ===================================================================== *)

Module ControllerFacts.
Import UIModalController ReferenceComponent.

Section WithRenderContext.
Context {RC : Type}.
Variable next : RC -> option Output -> RC.


(** X22: a controller that was made without a preset modal class is
    inert: whatever events arrive, and the render callback proxy is never
    handed out so it cannot be called, the controller stays as it was
    made; it has no modal component and no render callback. *)
Theorem controller_without_class_is_inert (dialog : nat) (c : Controller (RC := RC)) :
  reachable next dialog None c ->
  c = new_Controller dialog None.
Proof.
  induction 1 as [|s a c _ IH Hpossible]; [reflexivity|].
  subst c. destruct a as [[name|name]|output]; cbn.
  - destruct (String.eqb name "ShowModal"); [reflexivity|].
    destruct (String.eqb name "CloseModal"); reflexivity.
  - reflexivity.
  - discriminate Hpossible.
Qed.

End WithRenderContext.

(** X22 on a controller that has received two events. *)
Lemma controller_without_class_is_inert_witness :
  perform ModalFacts.count_calls ModalFacts.inside (ChildEvent (ComponentEvent "ShowModal"))
    (perform ModalFacts.count_calls ModalFacts.inside (ChildEvent (ComponentEvent "CloseModal"))
       (new_Controller 2 None))
  = new_Controller 2 None.
Proof.
  apply (controller_without_class_is_inert ModalFacts.count_calls 2).
  apply reach_step; [|reflexivity].
  apply reach_step; [apply reach_new | reflexivity].
Defined.

(** Induction along the [content] links. *)
Fixpoint chain_ind (Q : UIRenderable -> Prop)
    (Hcomponent : forall id, Q (IsComponent id))
    (Hempty : Q (IsController None))
    (Hcontent : forall c, Q c -> Q (IsController (Some c)))
    (Hother : forall id, Q (IsOther id))
    (r : UIRenderable) : Q r :=
  match r with
  | IsComponent id => Hcomponent id
  | IsController None => Hempty
  | IsController (Some c) => Hcontent c (chain_ind Q Hcomponent Hempty Hcontent Hother c)
  | IsOther id => Hother id
  end.

(** The loop of [_getReferenceComponent] on what a chain of controllers
    ends in. *)
Lemma reference_loop_chain (r : UIRenderable) (k : nat) :
  (forall id, innermost r <> Some (IsOther id)) ->
  reference_loop (S (depth r) + k) (Some r)
  = match innermost r with
    | Some (IsComponent id) => Some (Some id)
    | _ => Some None
    end.
Proof.
  induction r as [id| |c IH|id] using chain_ind; intros Hin.
  - reflexivity.
  - reflexivity.
  - cbn [depth innermost]. cbn [Nat.add reference_loop]. apply IH. exact Hin.
  - exfalso. exact (Hin id eq_refl).
Qed.

Lemma reference_loop_other (fuel : nat) (id : nat) :
  reference_loop fuel (Some (IsOther id)) = None.
Proof. induction fuel as [|fuel IH]; [reflexivity | exact IH]. Qed.

Lemma reference_loop_stuck (r : UIRenderable) (id : nat) :
  innermost r = Some (IsOther id) ->
  forall fuel, reference_loop fuel (Some r) = None.
Proof.
  induction r as [id'| |c IH|id'] using chain_ind; try discriminate.
  - intros Hin [|fuel]; [reflexivity|]. cbn [reference_loop]. apply IH. exact Hin.
  - intros _ fuel. apply reference_loop_other.
Qed.

(** X23: [_getReferenceComponent] follows the [content] links of the
    controllers: it returns the first component it meets, or undefined when
    a controller has no content, after one iteration per controller and one
    more. When the links end in a renderable that is neither a component
    nor a controller, the loop does not end. *)
Theorem getReferenceComponent_follows_content (content : option UIRenderable) (k : nat) :
  match innermost (IsController content) with
  | Some (IsComponent id) =>
      _getReferenceComponent (S (depth (IsController content)) + k) content = Some (Some id)
  | Some (IsOther _) =>
      forall fuel, _getReferenceComponent fuel content = None
  | _ =>
      _getReferenceComponent (S (depth (IsController content)) + k) content = Some None
  end.
Proof.
  unfold _getReferenceComponent.
  pose proof (reference_loop_chain (IsController content) k) as Hchain.
  destruct (innermost (IsController content)) as [[id|c|id]|] eqn:Hin.
  - apply Hchain. discriminate.
  - apply Hchain. discriminate.
  - exact (reference_loop_stuck (IsController content) id Hin).
  - apply Hchain. discriminate.
Qed.

End ControllerFacts.

(* ===================================================================== *)
(** * Further properties: the spacer *)
(* ===================================================================== *)

Module SpacerFacts.
Import UISpacer.

(** X24: a spacer made without arguments keeps the dimensions of the
    control and is not shrinkwrapped. A spacer made with a width or a
    height is shrinkwrapped, does not grow and shrinks by 1; it has the
    dimension given, keeps the other one of the two, and keeps every other
    setting of the control's dimensions. *)
Theorem new_UISpacer_dimensions (base : gmap string value) (width height : value) :
  let this := new_UISpacer base width height in
  if defined width || defined height then
    shrinkwrap this = true
    /\ prop (dimensions this) "grow" = VNum 0
    /\ prop (dimensions this) "shrink" = VNum 1
    /\ prop (dimensions this) "width" = (if defined width then width else prop base "width")
    /\ prop (dimensions this) "height"
       = (if defined height then height else prop base "height")
    /\ forall k, k <> "width" -> k <> "height" -> k <> "grow" -> k <> "shrink" ->
                 dimensions this !! k = base !! k
  else this = mkSpacer base false.
Proof.
  unfold new_UISpacer.
  destruct (defined width || defined height); [|reflexivity].
  cbn [dimensions shrinkwrap]. unfold prop.
  split; [reflexivity|].
  split; [rewrite lookup_insert_ne by discriminate; rewrite lookup_insert_eq; reflexivity|].
  split; [rewrite lookup_insert_eq; reflexivity|].
  split.
  { rewrite !lookup_insert_ne by discriminate. rewrite lookup_insert_eq. reflexivity. }
  split.
  { rewrite !lookup_insert_ne by discriminate. rewrite lookup_insert_eq. reflexivity. }
  intros k Hw Hh Hg Hs. rewrite !lookup_insert_ne by congruence. reflexivity.
Qed.

End SpacerFacts.

(* ===================================================================== *)
(** * Further properties: error messages *)
(* ===================================================================== *)

Module ErrFacts.
Import Errors StringFacts.

Lemma expand_replacement_plain (matched before after r : string) :
  occurs "$" r = false -> expand_replacement matched before after r = r.
Proof.
  induction r as [|c r IH]; [reflexivity|].
  cbn [occurs]. intros H. apply orb_false_elim in H as [Hc Hr].
  specialize (IH Hr).
  destruct c as [[|] [|] [|] [|] [|] [|] [|] [|]];
    try discriminate Hc; cbn [expand_replacement]; rewrite IH; reflexivity.
Qed.

Lemma find2_first (a b : ascii) (before after : string) :
  occurs a before = false ->
  JsString.find2 a b (before +:+ String a (String b after)) = Some (before, after).
Proof.
  induction before as [|c before IH]; intros Hocc.
  - change (JsString.find2 a b (String a (String b after)) = Some ("", after)).
    cbn [JsString.find2]. rewrite !Ascii.eqb_refl. reflexivity.
  - cbn [occurs] in Hocc. apply orb_false_elim in Hocc as [Hc Hrest].
    change (String c before +:+ String a (String b after))
      with (String c (before +:+ String a (String b after))).
    cbn [JsString.find2].
    destruct (before +:+ String a (String b after)) as [|d t] eqn:Hrest'.
    { destruct before; discriminate Hrest'. }
    rewrite Hc. cbn [andb]. rewrite IH by exact Hrest. reflexivity.
Qed.

(** X25: when the text of an error has its first [%] in a [%s], and the
    argument has no [$] in it, the message is the text with that [%s]
    replaced by the argument as it is; a call without argument puts
    [undefined] there. *)
Theorem err_substitutes_argument (error : ERROR) (before after s : string) :
  errors error = before +:+ "%s" +:+ after ->
  occurs "%" before = false ->
  occurs "$" s = false ->
  err error (Some s) = JsError (before +:+ s +:+ after)
  /\ err error None = JsError (before +:+ "undefined" +:+ after).
Proof.
  intros Htext Hfirst Hplain.
  assert (Hne : String.eqb (errors error) "" = false).
  { rewrite Htext. destruct before; reflexivity. }
  assert (Hfind : JsString.find2 "%" "s" (errors error) = Some (before, after)).
  { rewrite Htext. apply (find2_first "%" "s" before after Hfirst). }
  unfold err, replace_percent_s. rewrite Hne, Hfind.
  rewrite !expand_replacement_plain by (exact Hplain || reflexivity).
  split; reflexivity.
Qed.

(** X25 on the error for an unknown filter. *)
Lemma err_substitutes_argument_witness :
  err Binding_UnknownFilter (Some "upper")
  = JsError "[Binding] Unknown binding filter: upper".
Proof.
  exact (proj1 (err_substitutes_argument Binding_UnknownFilter
                  "[Binding] Unknown binding filter: " "" "upper"
                  eq_refl eq_refl eq_refl)).
Defined.

(** X26: the table has a text for every error, so [err] never falls back
    on [Unknown error], whatever the argument; and for an error whose text
    has no [%s] the message is the text itself. *)
Theorem err_never_unknown (error : ERROR) (s : option string) :
  exists msg,
    err error s = JsError msg
    /\ errors error <> ""
    /\ msg <> "Unknown error"
    /\ (JsString.find2 "%" "s" (errors error) = None -> msg = errors error).
Proof.
  eexists. split; [reflexivity|].
  assert (Hne : String.eqb (errors error) "" = false) by (destruct error; reflexivity).
  split; [intros Heq; rewrite Heq in Hne; discriminate Hne|].
  assert (Hhead : JsString.head
                    (replace_percent_s
                       (if String.eqb (errors error) "" then "Unknown error" else errors error)
                       (match s with Some x => x | None => "undefined" end))
                  = JsString.head (errors error)
                  /\ JsString.head (errors error) <> Some "U"%char).
  { destruct error; split; try (vm_compute; reflexivity); discriminate. }
  destruct Hhead as [Hhead Hfirst].
  split.
  - intros Heq. rewrite Heq in Hhead. apply Hfirst. rewrite <- Hhead. reflexivity.
  - intros Hnone. unfold replace_percent_s. rewrite Hne, Hnone. reflexivity.
Qed.

End ErrFacts.
